(** * linear-mcp: the request handlers of [src/index.ts]

    A shallow embedding of the five request handlers that [LinearServer]
    registers in [setupHandlers]: the two resource catalogs, the resource
    reader, the tool catalog and the tool dispatcher.  The Linear client is an
    interface (a record of operations over an abstract remote state); every
    call made through it is recorded in a log, so that statements about which
    backend operation a handler reaches are statements about that log.

    JavaScript strings are modelled as [string] (8-bit characters), numbers
    that appear in payloads as integers ([Z]). *)

From Stdlib Require Import ZArith List String Ascii Bool Lia Arith.
From Stdlib Require Import DecimalString DecimalZ DecimalPos DecimalFacts.
Import ListNotations.
Open Scope list_scope.
Open Scope string_scope.

Set Implicit Arguments.
Set Warnings "-register-all".

(* ================================================================== *)
(** ** JavaScript values *)

(** The values that flow through the handlers: tool arguments, backend
    payloads, and the [undefined] that [let content;] and a missing
    property produce. An object lists its own enumerable properties in
    enumeration order. *)
Inductive JSValue : Type :=
| JUndefined
| JNull
| JBool (b : bool)
| JNumber (n : Z)
| JString (s : string)
| JArray (items : list JSValue)
| JObject (props : list (string * JSValue)).

(** [o[key]] on the property list of an object; [undefined] when absent. *)
Fixpoint lookup (key : string) (props : list (string * JSValue)) : JSValue :=
  match props with
  | [] => JUndefined
  | (k, v) :: rest => if String.eqb k key then v else lookup key rest
  end.

(** [v?.key]: [undefined] on [null] and [undefined]; the own property on an
    object; [undefined] on any value that has no such own property. *)
Definition optional_get (v : JSValue) (key : string) : JSValue :=
  match v with
  | JObject props => lookup key props
  | _ => JUndefined
  end.

(** Number::toString on the numbers of the model, which are integers: the
    decimal digits with a minus sign, as the engine writes every integer of
    magnitude below 10^21. *)
Definition number_to_string (n : Z) : string :=
  NilEmpty.string_of_int (Z.to_int n).

(** [Array.prototype.join]. *)
Fixpoint join (sep : string) (parts : list string) : string :=
  match parts with
  | [] => ""
  | [p] => p
  | p :: rest => p ++ sep ++ join sep rest
  end.

(** ToString, as applied by [String(v)] and by a template literal. An array
    joins its elements with a comma, [null] and [undefined] elements giving
    the empty string. *)
Fixpoint ToString (v : JSValue) : string :=
  match v with
  | JUndefined => "undefined"
  | JNull => "null"
  | JBool true => "true"
  | JBool false => "false"
  | JNumber n => number_to_string n
  | JString s => s
  | JArray items =>
      join "," (map (fun x => match x with
                              | JUndefined | JNull => ""
                              | _ => ToString x
                              end) items)
  | JObject _ => "[object Object]"
  end.

(** [s.startsWith(p)]. *)
Definition startsWith (s p : string) : bool := String.prefix p s.

(** [s.slice(n)] for [n] within the string. *)
Fixpoint drop (n : nat) (s : string) : string :=
  match n, s with
  | O, _ => s
  | S _, EmptyString => EmptyString
  | S n', String _ s' => drop n' s'
  end.

(** [s.replace(pattern, replacement)] with a string pattern: the first
    occurrence of [pattern], scanning from the left, is replaced; a string
    without an occurrence is returned unchanged. (The replacement used by the
    reader is empty, so no [$]-pattern arises.) *)
Fixpoint replace (s pattern replacement : string) : string :=
  if String.prefix pattern s
  then replacement ++ drop (String.length pattern) s
  else match s with
       | EmptyString => EmptyString
       | String c s' => String c (replace s' pattern replacement)
       end.

(* ================================================================== *)
(** ** JSON.stringify *)

(** The double quote character. *)
Definition dquote : ascii := "034"%char.

Definition hex_digit (n : nat) : ascii :=
  match n with
  | 0 => "0" | 1 => "1" | 2 => "2" | 3 => "3" | 4 => "4" | 5 => "5"
  | 6 => "6" | 7 => "7" | 8 => "8" | 9 => "9" | 10 => "a" | 11 => "b"
  | 12 => "c" | 13 => "d" | 14 => "e" | _ => "f"
  end%char.

(** QuoteJSONString, one character: the two-character escapes, [\u00xx]
    for the other control characters, the character itself otherwise. *)
Definition quote_char (c : ascii) : string :=
  let n := nat_of_ascii c in
  if Nat.eqb n 8 then "\b"
  else if Nat.eqb n 9 then "\t"
  else if Nat.eqb n 10 then "\n"
  else if Nat.eqb n 12 then "\f"
  else if Nat.eqb n 13 then "\r"
  else if Nat.eqb n 34 then String "\" (String dquote "")
  else if Nat.eqb n 92 then "\\"
  else if Nat.ltb n 32
       then "\u00" ++ String (hex_digit (n / 16)) (String (hex_digit (n mod 16)) "")
       else String c "".

Fixpoint quote_chars (s : string) : string :=
  match s with
  | EmptyString => EmptyString
  | String c s' => quote_char c ++ quote_chars s'
  end.

Definition QuoteJSONString (s : string) : string :=
  String dquote (quote_chars s ++ String dquote "").

Definition newline : string := String (ascii_of_nat 10) "".

Fixpoint spaces (n : nat) : string :=
  match n with
  | O => ""
  | S n' => String " " (spaces n')
  end.

(** The bracketed form of SerializeJSONArray and SerializeJSONObject:
    [partial] are the serialized members, [indent] the indentation of the
    members and [stepback] that of the closing bracket. *)
Definition wrap (opening closing gap stepback indent : string)
           (partial : list string) : string :=
  match partial with
  | [] => opening ++ closing
  | _ =>
      if String.eqb gap ""
      then opening ++ join "," partial ++ closing
      else opening ++ newline ++ indent
             ++ join ("," ++ newline ++ indent) partial
             ++ newline ++ stepback ++ closing
  end.

(** SerializeJSONProperty with no replacer; [None] is the [undefined] that
    the serialization of [undefined] is. An [undefined] array element is
    written [null]; a property whose value is [undefined] is left out. *)
Fixpoint serialize (gap indent : string) (v : JSValue) : option string :=
  match v with
  | JUndefined => None
  | JNull => Some "null"
  | JBool true => Some "true"
  | JBool false => Some "false"
  | JNumber n => Some (number_to_string n)
  | JString s => Some (QuoteJSONString s)
  | JArray items =>
      let inner := indent ++ gap in
      Some (wrap "[" "]" gap indent inner
              (map (fun x => match serialize gap inner x with
                             | Some t => t
                             | None => "null"
                             end) items))
  | JObject props =>
      let inner := indent ++ gap in
      Some (wrap "{" "}" gap indent inner
              (flat_map (fun kv => match serialize gap inner (snd kv) with
                                   | Some t =>
                                       [QuoteJSONString (fst kv) ++ ":"
                                          ++ (if String.eqb gap "" then "" else " ")
                                          ++ t]
                                   | None => []
                                   end) props))
  end.

(** [JSON.stringify(value, null, space)] with a numeric [space]: the gap is
    [min(10, space)] spaces; [JSON.stringify(value)] is [space = 0]. *)
Definition JSON_stringify (value : JSValue) (space : nat) : option string :=
  serialize (spaces (Nat.min 10 space)) "" value.


(* ================================================================== *)
(** ** JSON.parse *)

(** JSON white space: space, tab, line feed, carriage return. *)
Definition is_ws (c : ascii) : bool :=
  let n := nat_of_ascii c in
  Nat.eqb n 32 || Nat.eqb n 9 || Nat.eqb n 10 || Nat.eqb n 13.

Fixpoint skip_ws (s : string) : string :=
  match s with
  | String c rest => if is_ws c then skip_ws rest else s
  | EmptyString => s
  end.

Definition hex_value (c : ascii) : option nat :=
  let n := nat_of_ascii c in
  if Nat.leb 48 n && Nat.leb n 57 then Some (n - 48)
  else if Nat.leb 97 n && Nat.leb n 102 then Some (n - 87)
  else if Nat.leb 65 n && Nat.leb n 70 then Some (n - 55)
  else None.

Definition hex4 (h1 h2 h3 h4 : ascii) : option nat :=
  match hex_value h1, hex_value h2, hex_value h3, hex_value h4 with
  | Some a, Some b, Some c, Some d => Some (((a * 16 + b) * 16 + c) * 16 + d)
  | _, _, _, _ => None
  end.

(** The character a two-character escape stands for. *)
Definition unescape (e : ascii) : option ascii :=
  let n := nat_of_ascii e in
  if Nat.eqb n 34 then Some dquote
  else if Nat.eqb n 92 then Some "\"%char
  else if Nat.eqb n 47 then Some "/"%char
  else if Nat.eqb n 98 then Some (ascii_of_nat 8)
  else if Nat.eqb n 102 then Some (ascii_of_nat 12)
  else if Nat.eqb n 110 then Some (ascii_of_nat 10)
  else if Nat.eqb n 114 then Some (ascii_of_nat 13)
  else if Nat.eqb n 116 then Some (ascii_of_nat 9)
  else None.

Definition cons_char (c : ascii) (r : option (string * string))
  : option (string * string) :=
  match r with
  | Some (s, rest) => Some (String c s, rest)
  | None => None
  end.

(** The characters of a string literal after its opening quote, up to and
    including the closing quote; the result is the string read and the text
    that follows. A [\uXXXX] escape above the 8-bit range has no character
    in this model and is not read. *)
Fixpoint parse_chars (s : string) : option (string * string) :=
  match s with
  | EmptyString => None
  | String c rest =>
      if Ascii.eqb c dquote then Some (EmptyString, rest)
      else if Ascii.eqb c "\" then
        match rest with
        | EmptyString => None
        | String e rest1 =>
            if Ascii.eqb e "u" then
              match rest1 with
              | String h1 (String h2 (String h3 (String h4 rest2))) =>
                  match hex4 h1 h2 h3 h4 with
                  | Some n =>
                      if Nat.ltb n 256
                      then cons_char (ascii_of_nat n) (parse_chars rest2)
                      else None
                  | None => None
                  end
              | _ => None
              end
            else match unescape e with
                 | Some c' => cons_char c' (parse_chars rest1)
                 | None => None
                 end
        end
      else if Nat.ltb (nat_of_ascii c) 32 then None
      else cons_char c (parse_chars rest)
  end.

Definition digit_of (c : ascii) : option (Decimal.uint -> Decimal.uint) :=
  match nat_of_ascii c - 48, Nat.leb 48 (nat_of_ascii c) with
  | 0, true => Some Decimal.D0 | 1, _ => Some Decimal.D1
  | 2, _ => Some Decimal.D2 | 3, _ => Some Decimal.D3
  | 4, _ => Some Decimal.D4 | 5, _ => Some Decimal.D5
  | 6, _ => Some Decimal.D6 | 7, _ => Some Decimal.D7
  | 8, _ => Some Decimal.D8 | 9, _ => Some Decimal.D9
  | _, _ => None
  end.

(** The longest run of decimal digits at the head of the text. *)
Fixpoint read_digits (s : string) : Decimal.uint * string :=
  match s with
  | EmptyString => (Decimal.Nil, s)
  | String c rest =>
      match digit_of c with
      | Some d => let (ds, r) := read_digits rest in (d ds, r)
      | None => (Decimal.Nil, s)
      end
  end.

(** Whether the text after a digit run goes on with a fraction or an
    exponent. *)
Definition continues (rest : string) : bool :=
  match rest with
  | String c _ => Ascii.eqb c "." || Ascii.eqb c "e" || Ascii.eqb c "E"
  | EmptyString => false
  end.

(** A JSON number of the integer model: an optional minus sign, then [0]
    or a digit run without a leading zero. A fraction or an exponent has no
    value in the model and is not read, so the parser is the engine's on the
    texts whose numbers are integers, which are the texts that
    [JSON_stringify] writes. *)
Definition parse_number (s : string) : option (Z * string) :=
  let (negative, s1) :=
    match s with
    | String c r => if Ascii.eqb c "-" then (true, r) else (false, s)
    | EmptyString => (false, s)
    end in
  let (ds, rest) := read_digits s1 in
  let value := if negative then Z.opp (Z.of_uint ds) else Z.of_uint ds in
  match ds with
  | Decimal.Nil => None
  | Decimal.D0 (Decimal.Nil) => if continues rest then None else Some (value, rest)
  | Decimal.D0 _ => None
  | _ => if continues rest then None else Some (value, rest)
  end.

(** [word] read off the head of the text. *)
Definition expect (word s : string) : option string :=
  if String.prefix word s then Some (drop (String.length word) s) else None.

Definition with_value {A : Type} (f : A -> JSValue) (r : option (A * string))
  : option (JSValue * string) :=
  match r with
  | Some (a, rest) => Some (f a, rest)
  | None => None
  end.

(** The JSON value grammar. [fuel] bounds the nesting of calls; every call
    consumes at least one character, so the length of the text is enough.
    [parse_elements] reads the elements of a non-empty array up to the
    closing bracket, [parse_members] the members of a non-empty object up to
    the closing brace. The members of an object are kept in the order of
    the text (the order in which [JSON_stringify] writes the properties of
    an object). *)
Fixpoint parse_value (fuel : nat) (s : string) : option (JSValue * string) :=
  match fuel with
  | O => None
  | S fuel' =>
      match skip_ws s with
      | EmptyString => None
      | String c rest =>
          if Ascii.eqb c "[" then
            match skip_ws rest with
            | String c' rest' =>
                if Ascii.eqb c' "]" then Some (JArray [], rest')
                else with_value JArray (parse_elements fuel' rest)
            | EmptyString => None
            end
          else if Ascii.eqb c "{" then
            match skip_ws rest with
            | String c' rest' =>
                if Ascii.eqb c' "}" then Some (JObject [], rest')
                else with_value JObject (parse_members fuel' rest)
            | EmptyString => None
            end
          else if Ascii.eqb c dquote then with_value JString (parse_chars rest)
          else if Ascii.eqb c "n" then
            with_value (fun _ => JNull) (option_map (pair tt) (expect "ull" rest))
          else if Ascii.eqb c "t" then
            with_value (fun _ => JBool true) (option_map (pair tt) (expect "rue" rest))
          else if Ascii.eqb c "f" then
            with_value (fun _ => JBool false) (option_map (pair tt) (expect "alse" rest))
          else with_value JNumber (parse_number (String c rest))
      end
  end
with parse_elements (fuel : nat) (s : string) : option (list JSValue * string) :=
  match fuel with
  | O => None
  | S fuel' =>
      match parse_value fuel' s with
      | None => None
      | Some (v, rest) =>
          match skip_ws rest with
          | String c rest' =>
              if Ascii.eqb c "," then
                match parse_elements fuel' rest' with
                | Some (vs, rest'') => Some (v :: vs, rest'')
                | None => None
                end
              else if Ascii.eqb c "]" then Some ([v], rest')
              else None
          | EmptyString => None
          end
      end
  end
with parse_members (fuel : nat) (s : string)
  : option (list (string * JSValue) * string) :=
  match fuel with
  | O => None
  | S fuel' =>
      match skip_ws s with
      | String q rest =>
          if Ascii.eqb q dquote then
            match parse_chars rest with
            | None => None
            | Some (key, rest1) =>
                match skip_ws rest1 with
                | String colon rest2 =>
                    if Ascii.eqb colon ":" then
                      match parse_value fuel' rest2 with
                      | None => None
                      | Some (v, rest3) =>
                          match skip_ws rest3 with
                          | String c rest4 =>
                              if Ascii.eqb c "," then
                                match parse_members fuel' rest4 with
                                | Some (kvs, rest5) => Some ((key, v) :: kvs, rest5)
                                | None => None
                                end
                              else if Ascii.eqb c "}" then Some ([(key, v)], rest4)
                              else None
                          | EmptyString => None
                          end
                      end
                    else None
                | EmptyString => None
                end
            end
          else None
      | EmptyString => None
      end
  end.

(** [JSON.parse(text)]: one value, then nothing but white space. [None]
    is the SyntaxError. *)
Definition JSON_parse (text : string) : option JSValue :=
  match parse_value (S (String.length text)) text with
  | Some (v, rest) =>
      match skip_ws rest with
      | EmptyString => Some v
      | String _ _ => None
      end
  | None => None
  end.

(* ================================================================== *)
(** ** JSON data and the vocabulary of the round trip *)

(** A value that JSON can hold as it is: no [undefined] anywhere in it. *)
Fixpoint json_data (v : JSValue) : bool :=
  match v with
  | JUndefined => false
  | JArray items => forallb json_data items
  | JObject props => forallb (fun kv => json_data (snd kv)) props
  | _ => true
  end.

(** The largest integer that a JavaScript number holds exactly,
    [Number.MAX_SAFE_INTEGER]. *)
Definition MAX_SAFE_INTEGER : Z := 9007199254740991%Z.

(** Every number in the value is a safe integer: one that a JavaScript
    number holds exactly and that the engine writes, and reads back, as its
    decimal digits. *)
Fixpoint safe_integers (v : JSValue) : bool :=
  match v with
  | JNumber n => Z.leb (Z.abs n) MAX_SAFE_INTEGER
  | JArray items => forallb safe_integers items
  | JObject props => forallb (fun kv => safe_integers (snd kv)) props
  | _ => true
  end.

(** A bound on the nesting of parser calls a value needs. *)
Fixpoint size (v : JSValue) : nat :=
  match v with
  | JArray items => S (list_sum (map (fun x => S (size x)) items))
  | JObject props => S (list_sum (map (fun kv => S (size (snd kv))) props))
  | _ => 1
  end.

(** A text of white space only. *)
Fixpoint blank (s : string) : bool :=
  match s with
  | EmptyString => true
  | String c rest => is_ws c && blank rest
  end.

(** What may follow a serialized value: the end of the text, white space,
    a comma or a closing bracket. *)
Definition delimited (rest : string) : bool :=
  match rest with
  | EmptyString => true
  | String c _ => is_ws c || Ascii.eqb c "," || Ascii.eqb c "]" || Ascii.eqb c "}"
  end.

(** The head of a serialized value is neither white space nor a closing
    bracket. *)
Definition opens (t : string) : bool :=
  match t with
  | String c _ => negb (is_ws c) && negb (Ascii.eqb c "]")
  | EmptyString => false
  end.

(** The text of an array element, as [serialize] writes it. *)
Definition element_text (gap inner : string) (x : JSValue) : string :=
  match serialize gap inner x with
  | Some t => t
  | None => "null"
  end.

(** The text of an object member, as [serialize] writes it: none for an
    [undefined] value. *)
Definition member_text (gap inner : string) (kv : string * JSValue) : list string :=
  match serialize gap inner (snd kv) with
  | Some t => [QuoteJSONString (fst kv) ++ ":" ++ (if String.eqb gap "" then "" else " ") ++ t]
  | None => []
  end.

Definition member_space (gap : string) : string :=
  if String.eqb gap "" then "" else " ".

Definition member_line (gap inner : string) (kv : string * JSValue) : string :=
  QuoteJSONString (fst kv) ++ ":" ++ member_space gap ++ element_text gap inner (snd kv).

(** Reading back the serialization of [v], followed by any delimited text,
    gives [v] and leaves that text. *)
Definition round_trips (v : JSValue) : Prop :=
  json_data v = true ->
  forall (gap indent t rest : string) (fuel : nat),
    blank gap = true -> blank indent = true -> delimited rest = true ->
    serialize gap indent v = Some t -> size v <= fuel ->
    parse_value fuel (t ++ rest) = Some (v, rest).

(** What a value is once it has gone through [JSON.stringify]: a property
    whose value is [undefined] is gone, an [undefined] array element is
    [null]. *)
Fixpoint normalize (v : JSValue) : JSValue :=
  match v with
  | JArray items =>
      JArray (map (fun x => match x with
                            | JUndefined => JNull
                            | _ => normalize x
                            end) items)
  | JObject props =>
      JObject (flat_map (fun kv => match snd kv with
                                   | JUndefined => []
                                   | _ => [(fst kv, normalize (snd kv))]
                                   end) props)
  | _ => v
  end.

(** [normalize] on one array element and on one object member. *)
Definition normal_element (x : JSValue) : JSValue :=
  match x with
  | JUndefined => JNull
  | _ => normalize x
  end.

Definition normal_member (kv : string * JSValue) : list (string * JSValue) :=
  match snd kv with
  | JUndefined => []
  | _ => [(fst kv, normalize (snd kv))]
  end.

(* ================================================================== *)
(** ** Thrown values and protocol errors *)

(** The [ErrorCode]s of the protocol SDK that the handlers use. *)
Inductive ErrorCode : Type := InvalidRequest | MethodNotFound | InternalError.

(** What a [throw] or a rejected promise carries: an [McpError] built by a
    handler, any other [Error] instance (by its [message]), or a value that
    is not an [Error]. *)
Inductive Thrown : Type :=
| McpError (code : ErrorCode) (message : string)
| OtherError (message : string)
| ThrownValue (v : JSValue).

(** A settled promise. *)
Inductive Outcome (A : Type) : Type :=
| Resolved (a : A)
| Rejected (e : Thrown).
Arguments Resolved {A} a.
Arguments Rejected {A} e.

(* ================================================================== *)
(** ** The Linear client *)

(** [IssueConnection] and [TeamConnection]: only [nodes] is read. *)
Record Connection : Type := { nodes : JSValue }.

(** The object literal given to [createIssue]. The four fields are always
    present as keys; each holds whatever the arguments held. *)
Record IssueCreateInput : Type :=
  { create_title : JSValue;
    create_description : JSValue;
    create_teamId : JSValue;
    create_priority : JSValue }.

(** The object literal given to [updateIssue]. *)
Record IssueUpdateInput : Type :=
  { update_title : JSValue;
    update_description : JSValue }.

(** [IssuePayload]: its [issue] property is either absent ([None]) or a
    promise of the issue, which settles when awaited. *)
Record IssuePayload : Type := { payload_issue : option (Outcome JSValue) }.

(** The operations of [LinearClient] that the handlers call, over the remote
    state [W]. [issues] takes the list of [filter.state.type.in]. *)
Record LinearClient (W : Type) : Type :=
  { issues : list string -> W -> Outcome Connection * W;
    teams : W -> Outcome Connection * W;
    issue : string -> W -> Outcome JSValue * W;
    createIssue : IssueCreateInput -> W -> Outcome IssuePayload * W;
    updateIssue : JSValue -> IssueUpdateInput -> W -> Outcome IssuePayload * W }.

(** One entry of the log of calls made through the client. *)
Inductive Call : Type :=
| CallIssues (stateTypes : list string)
| CallTeams
| CallIssue (id : string)
| CallCreateIssue (input : IssueCreateInput)
| CallUpdateIssue (id : JSValue) (input : IssueUpdateInput).

(* ================================================================== *)
(** ** Catalog and result records *)

Record Resource : Type :=
  { res_uri : string; res_name : string;
    res_mimeType : string; res_description : string }.

Record ResourceTemplate : Type :=
  { tpl_uriTemplate : string; tpl_name : string;
    tpl_mimeType : string; tpl_description : string }.

(** A property of an [inputSchema]. *)
Record PropertySchema : Type :=
  { prop_type : string; prop_description : string;
    prop_minimum : option Z; prop_maximum : option Z }.

Record InputSchema : Type :=
  { schema_type : string;
    schema_properties : list (string * PropertySchema);
    schema_required : list string }.

Record Tool : Type :=
  { tool_name : string; tool_description : string; inputSchema : InputSchema }.

(** One item of [contents] in the result of a read; [text] is what
    [JSON.stringify] returned ([None] for [undefined]). *)
Record ResourceContents : Type :=
  { uri : string; mimeType : string; text : option string }.

Record ReadResourceResult : Type := { contents : list ResourceContents }.

Record TextContent : Type := { content_type : string; content_text : option string }.

(** The result of a tool call; [isError] is [None] when the key is absent. *)
Record CallToolResult : Type :=
  { content : list TextContent; isError : option bool }.

(** The names a schema declares, as the catalog is read: the required ones
    and the others. *)
Definition required_fields (t : Tool) : list string :=
  schema_required (inputSchema t).

Definition mem (x : string) (l : list string) : bool :=
  existsb (String.eqb x) l.

Definition optional_fields (t : Tool) : list string :=
  filter (fun k => negb (mem k (required_fields t)))
         (map fst (schema_properties (inputSchema t))).

Definition property (t : Tool) (key : string) : option PropertySchema :=
  option_map snd
    (find (fun kv => String.eqb (fst kv) key) (schema_properties (inputSchema t))).

Definition string_property (description : string) : PropertySchema :=
  {| prop_type := "string"; prop_description := description;
     prop_minimum := None; prop_maximum := None |}.

(** The [ListResourcesRequestSchema] handler. *)
Definition listResources : list Resource :=
  [ {| res_uri := "linear://issues/active"; res_name := "Active Issues";
       res_mimeType := "application/json";
       res_description := "Currently active issues in Linear" |};
    {| res_uri := "linear://teams"; res_name := "Teams";
       res_mimeType := "application/json";
       res_description := "List of teams in the workspace" |} ].

(** The [ListResourceTemplatesRequestSchema] handler. *)
Definition listResourceTemplates : list ResourceTemplate :=
  [ {| tpl_uriTemplate := "linear://issues/{issueId}"; tpl_name := "Single Issue";
       tpl_mimeType := "application/json";
       tpl_description := "Get a specific issue by ID" |} ].

(** The [ListToolsRequestSchema] handler. *)
Definition listTools : list Tool :=
  [ {| tool_name := "create_issue";
       tool_description := "Create a new issue in Linear";
       inputSchema :=
         {| schema_type := "object";
            schema_properties :=
              [ ("title", string_property "Title of the issue");
                ("description", string_property "Description of the issue");
                ("teamId", string_property "ID of the team to assign the issue to");
                ("priority",
                  {| prop_type := "number";
                     prop_description := "Priority of the issue (0-4)";
                     prop_minimum := Some 0%Z; prop_maximum := Some 4%Z |}) ];
            schema_required := ["title"; "teamId"] |} |};
    {| tool_name := "read_team_ids";
       tool_description := "Read team ids";
       inputSchema :=
         {| schema_type := "object"; schema_properties := [];
            schema_required := [] |} |};
    {| tool_name := "update_issue";
       tool_description := "Update an existing issue in Linear";
       inputSchema :=
         {| schema_type := "object";
            schema_properties :=
              [ ("issueId", string_property "ID of the issue to update");
                ("title", string_property "New title for the issue");
                ("description", string_property "New description for the issue");
                ("status", string_property "New status for the issue") ];
            schema_required := ["issueId"] |} |} ].

(* ================================================================== *)
(** ** Two clients to run the handlers on *)

(** The number the SDK gives each [ErrorCode]. *)
Definition ErrorCode_number (code : ErrorCode) : Z :=
  match code with
  | InvalidRequest => (-32600)%Z
  | MethodNotFound => (-32601)%Z
  | InternalError => (-32603)%Z
  end.

(** The message format of the SDK's [McpError]. *)
Definition sdk_message (code : ErrorCode) (message : string) : string :=
  "MCP error " ++ number_to_string (ErrorCode_number code) ++ ": " ++ message.

Definition type_error_message : string :=
  "Cannot destructure property of undefined".

(** An issue as the tracker below stores it. *)
Definition tracker_issue (id : string) (title description : JSValue) : JSValue :=
  JObject [ ("id", JString id);
            ("title", title);
            ("description", description);
            ("url", JString ("https://linear.app/acme/issue/" ++ id)) ].

Definition tracker_find (id : string) (w : list (string * JSValue))
  : option JSValue :=
  option_map snd (find (fun kv => String.eqb (fst kv) id) w).

(** An in-memory tracker with one team, [team1]: the remote state is the
    list of stored issues by identifier. Creating an issue outside [team1]
    and reading or updating an unknown issue are rejected. *)
Definition tracker : LinearClient (list (string * JSValue)) :=
  {| issues := fun _ w => (Resolved {| nodes := JArray (map snd w) |}, w);
     teams := fun w =>
       (Resolved {| nodes := JArray [ JObject [ ("id", JString "team1");
                                                  ("name", JString "Core") ] ] |}, w);
     issue := fun id w =>
       match tracker_find id w with
       | Some found => (Resolved found, w)
       | None => (Rejected (OtherError "Entity not found: Issue"), w)
       end;
     createIssue := fun input w =>
       match create_teamId input with
       | JString "team1" =>
           let id := "ENG-" ++ number_to_string (Z.of_nat (S (List.length w))) in
           let created :=
             tracker_issue id (create_title input) (create_description input) in
           (Resolved {| payload_issue := Some (Resolved created) |}, (id, created) :: w)
       | _ => (Rejected (OtherError "teamId must be a UUID"), w)
       end;
     updateIssue := fun id input w =>
       match id with
       | JString known =>
           match tracker_find known w with
           | Some _ =>
               let updated :=
                 tracker_issue known (update_title input) (update_description input) in
               (Resolved {| payload_issue := Some (Resolved updated) |},
                (known, updated) :: w)
           | None => (Rejected (OtherError "Entity not found: Issue"), w)
           end
       | _ => (Rejected (OtherError "Entity not found: Issue"), w)
       end |}.

(** A tracker state: one stored issue, which was never archived. *)
Definition tracker_world : list (string * JSValue) :=
  [ ("ENG-7", JObject [ ("id", JString "ENG-7");
                        ("title", JString "Fix login");
                        ("archivedAt", JUndefined) ]) ].

(** A client that answers every mutation with the same settled payload
    and holds no data. *)
Definition scripted (answer : Outcome IssuePayload) : LinearClient unit :=
  {| issues := fun _ w => (Resolved {| nodes := JArray [] |}, w);
     teams := fun w => (Resolved {| nodes := JArray [] |}, w);
     issue := fun _ w => (Resolved JNull, w);
     createIssue := fun _ w => (answer, w);
     updateIssue := fun _ _ w => (answer, w) |}.

(** The tool catalog as a reader of it sees each tool: its name, the
    required fields and the optional ones. *)
Definition tool_summary (t : Tool) : string * list string * list string :=
  (tool_name t, required_fields t, optional_fields t).

(** A tool name that the catalog declares. *)
Definition declared_tool (name : string) : bool :=
  mem name (map tool_name listTools).

(** A uri that one of the three routing rules of the reader takes. *)
Definition routable (request_uri : string) : bool :=
  String.eqb request_uri "linear://issues/active"
  || String.eqb request_uri "linear://teams"
  || startsWith request_uri "linear://issues/".

(** Some field that the catalog requires of the tool [name] is not a key of
    the arguments. *)
Definition missing_required (name : string) (args : list (string * JSValue)) : bool :=
  existsb (fun t => String.eqb (tool_name t) name
                    && existsb (fun key => negb (mem key (map fst args)))
                               (required_fields t))
          listTools.

(* ================================================================== *)
(** ** The handlers that reach the backend *)

Section Handlers.

(** The remote state and the client bound to it. *)
Variable W : Type.
Variable linearClient : LinearClient W.

(** The [message] that the SDK's [McpError] constructor gives the error it
    builds from a code and a text. *)
Variable McpError_message : ErrorCode -> string -> string.

(** The [message] of the TypeError that destructuring [undefined] throws. *)
Variable destructure_message : string.

(** What a handler runs against: the remote state and the calls made so
    far, oldest first. *)
Record State : Type := { world : W; log : list Call }.

(** An [async] computation. *)
Definition Async (A : Type) : Type := State -> Outcome A * State.

Definition ret {A : Type} (a : A) : Async A :=
  fun st => (Resolved a, st).

Definition throw {A : Type} (e : Thrown) : Async A :=
  fun st => (Rejected e, st).

Definition bind {A B : Type} (m : Async A) (k : A -> Async B) : Async B :=
  fun st =>
    match m st with
    | (Resolved a, st') => k a st'
    | (Rejected e, st') => (Rejected e, st')
    end.

(** [try { body } catch (error) { handler }]. *)
Definition try_catch {A : Type} (body : Async A) (handler : Thrown -> Async A)
  : Async A :=
  fun st =>
    match body st with
    | (Resolved a, st') => (Resolved a, st')
    | (Rejected e, st') => handler e st'
    end.

(** [await] on a value that has already settled. *)
Definition await {A : Type} (o : Outcome A) : Async A :=
  fun st => (o, st).

(** A call through the client: logged, then answered by the backend. *)
Definition request {A : Type} (c : Call) (op : W -> Outcome A * W) : Async A :=
  fun st =>
    let (o, w') := op (world st) in
    (o, {| world := w'; log := log st ++ [c] |}).

Notation "x <- m ;; k" := (bind m (fun x => k))
  (at level 61, m at next level, right associativity).

(** [error instanceof Error ? error.message : String(error)]. *)
Definition error_text (error : Thrown) : string :=
  match error with
  | McpError code message => McpError_message code message
  | OtherError message => message
  | ThrownValue v => ToString v
  end.

(** [const { ... } = request.params.arguments]: a TypeError when the
    request carries no [arguments]. *)
Definition destructure (arguments : option (list (string * JSValue)))
  : Async (list (string * JSValue)) :=
  match arguments with
  | Some args => ret args
  | None => throw (OtherError destructure_message)
  end.

(** [await payload.issue]. *)
Definition await_issue (payload : IssuePayload) : Async JSValue :=
  match payload_issue payload with
  | Some promise => await promise
  | None => ret JUndefined
  end.

(** The [ReadResourceRequestSchema] handler. *)
Definition readResource (request_uri : string) : Async ReadResourceResult :=
  try_catch
    (content <-
       (if String.eqb request_uri "linear://issues/active" then
          found <- request (CallIssues ["started"; "unstarted"; "backlog"])
                     (issues linearClient ["started"; "unstarted"; "backlog"]) ;;
          ret (nodes found)
        else if String.eqb request_uri "linear://teams" then
          found <- request CallTeams (teams linearClient) ;;
          ret (nodes found)
        else if startsWith request_uri "linear://issues/" then
          let issueId := replace request_uri "linear://issues/" "" in
          if negb (String.eqb issueId "active") then
            found <- request (CallIssue issueId) (issue linearClient issueId) ;;
            ret found
          else ret JUndefined
        else
          throw (McpError InvalidRequest ("Unknown resource: " ++ request_uri))) ;;
     ret {| contents :=
              [ {| uri := request_uri;
                   mimeType := "application/json";
                   text := JSON_stringify content 2 |} ] |})
    (fun error =>
       throw (McpError InternalError ("Linear API error: " ++ error_text error))).

Definition text_item (t : option string) : TextContent :=
  {| content_type := "text"; content_text := t |}.

(** The [CallToolRequestSchema] handler. *)
Definition callTool (name : string) (arguments : option (list (string * JSValue)))
  : Async CallToolResult :=
  try_catch
    (if String.eqb name "create_issue" then
       args <- destructure arguments ;;
       let input :=
         {| create_title := lookup "title" args;
            create_description := lookup "description" args;
            create_teamId := lookup "teamId" args;
            create_priority := lookup "priority" args |} in
       payload <- request (CallCreateIssue input) (createIssue linearClient input) ;;
       created <- await_issue payload ;;
       ret {| content :=
                [ text_item
                    (Some ("Created issue: " ++ ToString (optional_get created "url"))) ];
              isError := None |}
     else if String.eqb name "update_issue" then
       args <- destructure arguments ;;
       let issueId := lookup "issueId" args in
       let input :=
         {| update_title := lookup "title" args;
            update_description := lookup "description" args |} in
       payload <- request (CallUpdateIssue issueId input)
                    (updateIssue linearClient issueId input) ;;
       updated <- await_issue payload ;;
       ret {| content :=
                [ text_item
                    (Some ("Updated issue: " ++ ToString (optional_get updated "url"))) ];
              isError := None |}
     else if String.eqb name "read_team_ids" then
       found <- request CallTeams (teams linearClient) ;;
       ret {| content := [ text_item (JSON_stringify (nodes found) 0) ];
              isError := None |}
     else
       throw (McpError MethodNotFound ("Unknown tool: " ++ name)))
    (fun error =>
       ret {| content := [ text_item (Some ("Linear API error: " ++ error_text error)) ];
              isError := Some true |}).

(** A handler run on a fresh request: the remote state [w], no call made
    yet. *)
Definition run {A : Type} (m : Async A) (w : W) : Outcome A * State :=
  m {| world := w; log := [] |}.

(** The soft failure that the dispatcher's [catch] returns. *)
Definition error_result (error : Thrown) : CallToolResult :=
  {| content := [ text_item (Some ("Linear API error: " ++ error_text error)) ];
     isError := Some true |}.

(** The object literals that the dispatcher builds from the arguments. *)
Definition create_input (args : list (string * JSValue)) : IssueCreateInput :=
  {| create_title := lookup "title" args;
     create_description := lookup "description" args;
     create_teamId := lookup "teamId" args;
     create_priority := lookup "priority" args |}.

Definition update_input (args : list (string * JSValue)) : IssueUpdateInput :=
  {| update_title := lookup "title" args;
     update_description := lookup "description" args |}.

(** The backend read that a routable uri stands for succeeds on the
    remote state [w] with [payload], leaving the state [w']. *)
Inductive backend_read (request_uri : string) (w : W) : JSValue -> W -> Prop :=
| read_active (found : Connection) (w' : W) :
    request_uri = "linear://issues/active" ->
    issues linearClient ["started"; "unstarted"; "backlog"] w = (Resolved found, w') ->
    backend_read request_uri w (nodes found) w'
| read_teams (found : Connection) (w' : W) :
    request_uri = "linear://teams" ->
    teams linearClient w = (Resolved found, w') ->
    backend_read request_uri w (nodes found) w'
| read_issue (id : string) (found : JSValue) (w' : W) :
    request_uri = "linear://issues/" ++ id ->
    id <> "active" ->
    issue linearClient id w = (Resolved found, w') ->
    backend_read request_uri w found w'.


(** The backend read that a routable uri stands for throws [error] on the
    remote state [w]. *)
Inductive backend_read_failure (request_uri : string) (w : W) : Thrown -> Prop :=
| active_rejected (error : Thrown) (w' : W) :
    request_uri = "linear://issues/active" ->
    issues linearClient ["started"; "unstarted"; "backlog"] w = (Rejected error, w') ->
    backend_read_failure request_uri w error
| teams_read_rejected (error : Thrown) (w' : W) :
    request_uri = "linear://teams" ->
    teams linearClient w = (Rejected error, w') ->
    backend_read_failure request_uri w error
| issue_rejected (id : string) (error : Thrown) (w' : W) :
    request_uri = "linear://issues/" ++ id ->
    id <> "active" ->
    issue linearClient id w = (Rejected error, w') ->
    backend_read_failure request_uri w error.

End Handlers.

Unset Implicit Arguments.

(* ================================================================== *)
(** ** JSON: what is written is read back *)

Lemma append_assoc (a b c : string) : (a ++ b) ++ c = a ++ (b ++ c).
Proof. induction a as [|x a IH]; simpl; [reflexivity | now rewrite IH]. Qed.

Lemma append_empty_r (a : string) : a ++ "" = a.
Proof. induction a as [|x a IH]; simpl; [reflexivity | now rewrite IH]. Qed.

Lemma length_append (a b : string) :
  String.length (a ++ b) = String.length a + String.length b.
Proof. induction a as [|x a IH]; simpl; [reflexivity | now rewrite IH]. Qed.

(** Reading the escape of one character gives the character back; the 256
    characters are checked one by one. *)
Lemma parse_quote_char (c : ascii) (tail : string) :
  parse_chars (quote_char c ++ tail) = cons_char c (parse_chars tail).
Proof.
  destruct c as [[] [] [] [] [] [] [] []]; reflexivity.
Qed.

(** A quoted string is read back up to its closing quote. *)
Lemma parse_quote_chars (s rest : string) :
  parse_chars (quote_chars s ++ String dquote rest) = Some (s, rest).
Proof.
  induction s as [|c s IH]; simpl.
  - reflexivity.
  - rewrite append_assoc, parse_quote_char, IH. reflexivity.
Qed.

Lemma delimited_stops (c : ascii) (r : string) :
  delimited (String c r) = true ->
  digit_of c = None /\
  (Ascii.eqb c "." || Ascii.eqb c "e" || Ascii.eqb c "E") = false.
Proof.
  destruct c as [[] [] [] [] [] [] [] []]; simpl; intro H;
    try discriminate H; split; reflexivity.
Qed.

Lemma read_digits_uint (d : Decimal.uint) (rest : string) :
  delimited rest = true ->
  read_digits (NilEmpty.string_of_uint d ++ rest) = (d, rest).
Proof.
  intro H. induction d; simpl; try (rewrite IHd; reflexivity).
  destruct rest as [|c r]; [reflexivity|].
  simpl. destruct (delimited_stops c r H) as [-> _]. reflexivity.
Qed.

(** The decimal digits of a positive number do not start with a zero. *)
Lemma to_uint_head (p : positive) :
  match Pos.to_uint p with
  | Decimal.Nil => False
  | Decimal.D0 _ => False
  | _ => True
  end.
Proof.
  pose proof (Unsigned.to_uint_nonnil p) as Hnil.
  pose proof (Unsigned.to_uint_nonzero p) as Hzero.
  assert (Hnorm : Decimal.unorm (Pos.to_uint p) = Pos.to_uint p).
  { pose proof (Unsigned.to_of (Pos.to_uint p)) as H.
    rewrite Unsigned.of_to in H. simpl in H. symmetry. exact H. }
  destruct (Pos.to_uint p) as [|d| | | | | | | | | ]; try exact I.
  - apply Hnil. reflexivity.
  - rewrite unorm_D0 in Hnorm.
    assert (Hd : d = Decimal.Nil \/ d <> Decimal.Nil)
      by (destruct d; [left; reflexivity | right; discriminate ..]).
    destruct Hd as [->|Hd].
    + apply Hzero. reflexivity.
    + pose proof (nb_digits_unorm d Hd) as Hle.
      rewrite Hnorm in Hle. simpl in Hle. lia.
Qed.

Lemma of_to_uint (p : positive) : Z.of_uint (Pos.to_uint p) = Z.pos p.
Proof. unfold Z.of_uint. rewrite Unsigned.of_to. reflexivity. Qed.

Lemma parse_number_run (negative : bool) (s : string) (ds : Decimal.uint) (rest : string) :
  read_digits s = (ds, rest) ->
  match s with String c _ => Ascii.eqb c "-" = false | EmptyString => True end ->
  match ds with
  | Decimal.Nil => False
  | Decimal.D0 Decimal.Nil => True
  | Decimal.D0 _ => False
  | _ => True
  end ->
  continues rest = false ->
  parse_number (if negative then String "-" s else s)
  = Some ((if negative then Z.opp (Z.of_uint ds) else Z.of_uint ds), rest).
Proof.
  intros Hread Hsign Hhead Hcont. unfold parse_number.
  assert (Hsplit : match (if negative then String "-" s else s) with
                   | String c r => if Ascii.eqb c "-" then (true, r)
                                   else (false, if negative then String "-" s else s)
                   | EmptyString => (false, if negative then String "-" s else s)
                   end = (negative, s)).
  { destruct negative; [reflexivity|].
    destruct s as [|c r]; [reflexivity|]. now rewrite Hsign. }
  rewrite Hsplit, Hread, Hcont.
  destruct ds as [|d| | | | | | | | |]; try contradiction; try reflexivity.
  destruct d; try contradiction; reflexivity.
Qed.

Lemma continues_delimited (rest : string) :
  delimited rest = true -> continues rest = false.
Proof.
  destruct rest as [|c r]; [reflexivity|]. intro H. apply (delimited_stops c r H).
Qed.

Lemma string_of_uint_sign (d : Decimal.uint) (rest : string) :
  match NilEmpty.string_of_uint d ++ rest with
  | String c _ => d = Decimal.Nil \/ Ascii.eqb c "-" = false
  | EmptyString => True
  end.
Proof. destruct d; simpl; try (right; reflexivity). destruct rest; auto. Qed.

Lemma parse_number_digits (negative : bool) (p : positive) (rest : string) :
  delimited rest = true ->
  parse_number ((if negative then "-" else "")
                  ++ NilEmpty.string_of_uint (Pos.to_uint p) ++ rest)
  = Some ((if negative then Z.neg p else Z.pos p), rest).
Proof.
  intro H.
  pose proof (to_uint_head p) as Hhead.
  pose proof (parse_number_run negative _ _ _
                (read_digits_uint (Pos.to_uint p) rest H)) as Hrun.
  rewrite of_to_uint in Hrun.
  replace ((if negative then "-" else "")
             ++ NilEmpty.string_of_uint (Pos.to_uint p) ++ rest)
    with (if negative
          then String "-" (NilEmpty.string_of_uint (Pos.to_uint p) ++ rest)
          else NilEmpty.string_of_uint (Pos.to_uint p) ++ rest)
    by (destruct negative; reflexivity).
  replace (if negative then Z.neg p else Z.pos p)
    with (if negative then Z.opp (Z.pos p) else Z.pos p)
    by (destruct negative; reflexivity).
  apply Hrun.
  - pose proof (string_of_uint_sign (Pos.to_uint p) rest) as Hs.
    destruct (NilEmpty.string_of_uint (Pos.to_uint p) ++ rest); [exact I|].
    destruct Hs as [Hnil|Hs]; [|exact Hs].
    rewrite Hnil in Hhead. contradiction.
  - destruct (Pos.to_uint p) as [|d| | | | | | | | |]; try contradiction; exact I.
  - apply continues_delimited, H.
Qed.

(** A number is read back from its decimal text. *)
Lemma parse_number_to_string (n : Z) (rest : string) :
  delimited rest = true ->
  parse_number (number_to_string n ++ rest) = Some (n, rest).
Proof.
  intro H. unfold number_to_string. destruct n as [|p|p]; simpl Z.to_int.
  - apply (parse_number_run false (String "0" rest) (Decimal.D0 Decimal.Nil)).
    + exact (read_digits_uint (Decimal.D0 Decimal.Nil) rest H).
    + reflexivity.
    + exact I.
    + apply continues_delimited, H.
  - apply (parse_number_digits false p rest H).
  - apply (parse_number_digits true p rest H).
Qed.

Lemma skip_ws_blank (s t : string) :
  blank s = true -> skip_ws (s ++ t) = skip_ws t.
Proof.
  induction s as [|c s IH]; simpl; intro H; [reflexivity|].
  apply andb_true_iff in H as [Hc Hs]. rewrite Hc. auto.
Qed.

Lemma blank_append (a b : string) :
  blank a = true -> blank b = true -> blank (a ++ b) = true.
Proof.
  induction a as [|c a IH]; simpl; intros Ha Hb; [exact Hb|].
  apply andb_true_iff in Ha as [Hc Ha]. rewrite Hc. simpl. auto.
Qed.

Lemma blank_spaces (n : nat) : blank (spaces n) = true.
Proof. induction n; simpl; auto. Qed.

Lemma parse_value_blank (fuel : nat) (lead s : string) :
  blank lead = true -> parse_value fuel (lead ++ s) = parse_value fuel s.
Proof.
  intro H. destruct fuel as [|f]; [reflexivity|].
  simpl. rewrite (skip_ws_blank lead s H). reflexivity.
Qed.

Lemma parse_elements_blank (fuel : nat) (lead s : string) :
  blank lead = true -> parse_elements fuel (lead ++ s) = parse_elements fuel s.
Proof.
  intro H. destruct fuel as [|f]; [reflexivity|].
  simpl. rewrite (parse_value_blank f lead s H). reflexivity.
Qed.

Lemma parse_members_blank (fuel : nat) (lead s : string) :
  blank lead = true -> parse_members fuel (lead ++ s) = parse_members fuel s.
Proof.
  intro H. destruct fuel as [|f]; [reflexivity|].
  simpl. rewrite (skip_ws_blank lead s H). reflexivity.
Qed.

Lemma delimited_blank (trail : string) (c : ascii) (r : string) :
  blank trail = true -> delimited (String c r) = true ->
  delimited (trail ++ String c r) = true.
Proof.
  destruct trail as [|x trail]; simpl; intros Hb Hd; [exact Hd|].
  apply andb_true_iff in Hb as [-> _]. reflexivity.
Qed.

Lemma opens_number (n : Z) : opens (number_to_string n) = true.
Proof.
  unfold number_to_string. destruct n as [|p|p]; simpl; try reflexivity.
  pose proof (to_uint_head p) as H.
  destruct (Pos.to_uint p); try contradiction; reflexivity.
Qed.

Lemma opens_wrap_array (gap stepback indent : string) (partial : list string) :
  opens (wrap "[" "]" gap stepback indent partial) = true.
Proof.
  unfold wrap. destruct partial; [reflexivity|].
  destruct (String.eqb gap ""); reflexivity.
Qed.

Lemma opens_wrap_object (gap stepback indent : string) (partial : list string) :
  opens (wrap "{" "}" gap stepback indent partial) = true.
Proof.
  unfold wrap. destruct partial; [reflexivity|].
  destruct (String.eqb gap ""); reflexivity.
Qed.

Lemma opens_serialize (gap indent : string) (v : JSValue) (t : string) :
  serialize gap indent v = Some t -> opens t = true.
Proof.
  destruct v as [| |[]|n|s|items|props]; simpl; intro H;
    try discriminate H; injection H as <-; try reflexivity.
  - apply opens_number.
  - apply opens_wrap_array.
  - apply opens_wrap_object.
Qed.

Lemma skip_ws_opens (t rest : string) :
  opens t = true ->
  exists c t', t = String c t' /\ skip_ws (t ++ rest) = String c (t' ++ rest)
               /\ Ascii.eqb c "]" = false.
Proof.
  destruct t as [|c t']; simpl; intro H; [discriminate|].
  apply andb_true_iff in H as [Hw Hb].
  exists c, t'. repeat split.
  - destruct (is_ws c); [discriminate|reflexivity].
  - destruct (Ascii.eqb c "]"); [discriminate|reflexivity].
Qed.

Lemma serialize_defined (gap indent : string) (v : JSValue) :
  json_data v = true -> exists t, serialize gap indent v = Some t.
Proof.
  destruct v as [| |[]|n|s|items|props]; simpl; intro H;
    try discriminate H; eexists; reflexivity.
Qed.

(** The two layouts of [wrap] in one: a lead before each member and a
    trail before the closing bracket, both blank. *)
Lemma wrap_shape (opening closing gap stepback indent : string)
      (p : string) (ps : list string) :
  blank stepback = true -> blank indent = true ->
  exists lead trail,
    blank lead = true /\ blank trail = true /\
    wrap opening closing gap stepback indent (p :: ps)
    = opening ++ lead ++ join ("," ++ lead) (p :: ps) ++ trail ++ closing.
Proof.
  intros Hs Hi. unfold wrap. destruct (String.eqb gap "").
  - exists "", "". repeat split.
  - exists (newline ++ indent), (newline ++ stepback).
    split; [apply blank_append; [reflexivity|exact Hi]|].
    split; [apply blank_append; [reflexivity|exact Hs]|].
    rewrite !append_assoc. reflexivity.
Qed.

(** Induction on values, with the property known of every element of an
    array and of every property value of an object. *)
Lemma JSValue_induction (P : JSValue -> Prop) :
  P JUndefined -> P JNull -> (forall b, P (JBool b)) -> (forall n, P (JNumber n)) ->
  (forall s, P (JString s)) ->
  (forall items, Forall P items -> P (JArray items)) ->
  (forall props, Forall (fun kv => P (snd kv)) props -> P (JObject props)) ->
  forall v, P v.
Proof.
  intros Hu Hn Hb Hz Hs Ha Ho.
  fix IH 1. intros [| |b|n|s|items|props].
  - exact Hu.
  - exact Hn.
  - apply Hb.
  - apply Hz.
  - apply Hs.
  - apply Ha. induction items as [|x xs IHxs]; constructor; [apply IH | exact IHxs].
  - apply Ho. induction props as [|[k x] xs IHxs]; constructor; [apply IH | exact IHxs].
Qed.

Lemma parse_elements_S (f : nat) (s : string) :
  parse_elements (S f) s
  = match parse_value f s with
    | None => None
    | Some (v, rest) =>
        match skip_ws rest with
        | String c rest' =>
            if Ascii.eqb c "," then
              match parse_elements f rest' with
              | Some (vs, rest'') => Some (v :: vs, rest'')
              | None => None
              end
            else if Ascii.eqb c "]" then Some ([v], rest')
            else None
        | EmptyString => None
        end
    end.
Proof. reflexivity. Qed.

Lemma parse_members_S (f : nat) (s : string) :
  parse_members (S f) s
  = match skip_ws s with
    | String q rest =>
        if Ascii.eqb q dquote then
          match parse_chars rest with
          | None => None
          | Some (key, rest1) =>
              match skip_ws rest1 with
              | String colon rest2 =>
                  if Ascii.eqb colon ":" then
                    match parse_value f rest2 with
                    | None => None
                    | Some (v, rest3) =>
                        match skip_ws rest3 with
                        | String c rest4 =>
                            if Ascii.eqb c "," then
                              match parse_members f rest4 with
                              | Some (kvs, rest5) => Some ((key, v) :: kvs, rest5)
                              | None => None
                              end
                            else if Ascii.eqb c "}" then Some ([(key, v)], rest4)
                            else None
                        | EmptyString => None
                        end
                    end
                  else None
              | EmptyString => None
              end
          end
        else None
    | EmptyString => None
    end.
Proof. reflexivity. Qed.

Lemma parse_value_S (f : nat) (s : string) :
  parse_value (S f) s
  = match skip_ws s with
    | EmptyString => None
    | String c rest =>
        if Ascii.eqb c "[" then
          match skip_ws rest with
          | String c' rest' =>
              if Ascii.eqb c' "]" then Some (JArray [], rest')
              else with_value JArray (parse_elements f rest)
          | EmptyString => None
          end
        else if Ascii.eqb c "{" then
          match skip_ws rest with
          | String c' rest' =>
              if Ascii.eqb c' "}" then Some (JObject [], rest')
              else with_value JObject (parse_members f rest)
          | EmptyString => None
          end
        else if Ascii.eqb c dquote then with_value JString (parse_chars rest)
        else if Ascii.eqb c "n" then
          with_value (fun _ => JNull) (option_map (pair tt) (expect "ull" rest))
        else if Ascii.eqb c "t" then
          with_value (fun _ => JBool true) (option_map (pair tt) (expect "rue" rest))
        else if Ascii.eqb c "f" then
          with_value (fun _ => JBool false) (option_map (pair tt) (expect "alse" rest))
        else with_value JNumber (parse_number (String c rest))
    end.
Proof. reflexivity. Qed.

(** The elements of a non-empty array are read back from their joined
    texts, given that each element round-trips. *)
Lemma parse_elements_join (items : list JSValue) :
  Forall round_trips items -> forallb json_data items = true -> items <> [] ->
  forall (gap inner lead trail rest : string) (fuel : nat),
    blank gap = true -> blank inner = true ->
    blank lead = true -> blank trail = true ->
    list_sum (map (fun x => S (size x)) items) <= fuel ->
    parse_elements fuel
      (join ("," ++ lead) (map (element_text gap inner) items)
         ++ trail ++ String "]" rest)
    = Some (items, rest).
Proof.
  induction items as [|x xs IH]; intros Hall Hdata Hne; [congruence|].
  intros gap inner lead trail rest fuel Hgap Hinner Hlead Htrail Hfuel.
  inversion Hall as [|? ? Hx Hxs]; subst.
  simpl in Hdata. apply andb_true_iff in Hdata as [Hdx Hdxs].
  destruct (serialize_defined gap inner x Hdx) as [tx Htx].
  simpl in Hfuel. destruct fuel as [|f]; [lia|].
  assert (Hfx : size x <= f) by lia.
  unfold round_trips in Hx.
  rewrite parse_elements_S.
  destruct xs as [|y ys].
  - simpl map. unfold element_text at 1. rewrite Htx. simpl join.
    rewrite (Hx Hdx gap inner tx (trail ++ String "]" rest) f Hgap Hinner
               (delimited_blank trail "]" rest Htrail eq_refl) Htx Hfx).
    rewrite (skip_ws_blank trail _ Htrail). reflexivity.
  - assert (Hrest : list_sum (map (fun x0 => S (size x0)) (y :: ys)) <= f) by lia.
    specialize (IH Hxs Hdxs ltac:(discriminate) gap inner lead trail rest f
                   Hgap Hinner Hlead Htrail Hrest).
    change (map (element_text gap inner) (x :: y :: ys))
      with (element_text gap inner x :: map (element_text gap inner) (y :: ys)).
    remember (map (element_text gap inner) (y :: ys)) as tail eqn:Etail.
    assert (Hjoin : join ("," ++ lead) (element_text gap inner x :: tail)
                    = tx ++ String "," (lead ++ join ("," ++ lead) tail)).
    { unfold element_text at 1. rewrite Htx.
      subst tail. simpl map. cbn [join]. reflexivity. }
    rewrite Hjoin. rewrite !append_assoc.
    change ((String "," (lead ++ join ("," ++ lead) tail)) ++ trail ++ String "]" rest)
      with (String "," ((lead ++ join ("," ++ lead) tail) ++ trail ++ String "]" rest)).
    rewrite append_assoc.
    set (more := join ("," ++ lead) tail ++ trail ++ String "]" rest) in *.
    rewrite (Hx Hdx gap inner tx (String "," (lead ++ more)) f Hgap Hinner
               eq_refl Htx Hfx).
    change (skip_ws (String "," (lead ++ more))) with (String "," (lead ++ more)).
    cbv iota. change (Ascii.eqb "," ",") with true. cbv iota.
    rewrite (parse_elements_blank f lead more Hlead), IH. reflexivity.
Qed.

Lemma blank_member_space (gap : string) : blank (member_space gap) = true.
Proof. unfold member_space. destruct (String.eqb gap ""); reflexivity. Qed.

Lemma flat_map_member_text (gap inner : string) (props : list (string * JSValue)) :
  forallb (fun kv => json_data (snd kv)) props = true ->
  flat_map (member_text gap inner) props = map (member_line gap inner) props.
Proof.
  induction props as [|[k x] props IH]; simpl; intro H; [reflexivity|].
  apply andb_true_iff in H as [Hx Hrest].
  destruct (serialize_defined gap inner x Hx) as [tx Htx].
  unfold member_text at 1, member_line at 1, element_text, member_space. simpl.
  rewrite Htx, IH by exact Hrest. reflexivity.
Qed.

Lemma member_line_shape (gap inner k : string) (x : JSValue) (tx more : string) :
  serialize gap inner x = Some tx ->
  member_line gap inner (k, x) ++ more
  = String dquote (quote_chars k ++ String dquote
                     (String ":" (member_space gap ++ tx ++ more))).
Proof.
  intro Htx. unfold member_line, element_text, QuoteJSONString. simpl fst. simpl snd.
  rewrite Htx. simpl. rewrite !append_assoc. simpl. rewrite !append_assoc. reflexivity.
Qed.

Lemma skip_ws_head (c : ascii) (r : string) :
  is_ws c = false -> skip_ws (String c r) = String c r.
Proof. intro H. simpl. rewrite H. reflexivity. Qed.

Lemma parse_members_member (f : nat) (k sp t more : string) (v : JSValue) :
  blank sp = true ->
  parse_value f (t ++ more) = Some (v, more) ->
  parse_members (S f)
    (String dquote (quote_chars k ++ String dquote (String ":" (sp ++ t ++ more))))
  = match skip_ws more with
    | String c rest4 =>
        if Ascii.eqb c "," then
          match parse_members f rest4 with
          | Some (kvs, rest5) => Some ((k, v) :: kvs, rest5)
          | None => None
          end
        else if Ascii.eqb c "}" then Some ([(k, v)], rest4)
        else None
    | EmptyString => None
    end.
Proof.
  intros Hsp Hv. rewrite parse_members_S.
  rewrite (skip_ws_head dquote) by reflexivity.
  rewrite Ascii.eqb_refl, parse_quote_chars.
  rewrite (skip_ws_head ":") by reflexivity.
  rewrite Ascii.eqb_refl, (parse_value_blank f sp _ Hsp), Hv. reflexivity.
Qed.

(** The members of a non-empty object are read back from their joined
    lines, given that each property value round-trips. *)
Lemma parse_members_join (props : list (string * JSValue)) :
  Forall (fun kv => round_trips (snd kv)) props ->
  forallb (fun kv => json_data (snd kv)) props = true -> props <> [] ->
  forall (gap inner lead trail rest : string) (fuel : nat),
    blank gap = true -> blank inner = true ->
    blank lead = true -> blank trail = true ->
    list_sum (map (fun kv => S (size (snd kv))) props) <= fuel ->
    parse_members fuel
      (join ("," ++ lead) (map (member_line gap inner) props)
         ++ trail ++ String "}" rest)
    = Some (props, rest).
Proof.
  induction props as [|[k x] xs IH]; intros Hall Hdata Hne; [congruence|].
  intros gap inner lead trail rest fuel Hgap Hinner Hlead Htrail Hfuel.
  inversion Hall as [|? ? Hx Hxs]; subst.
  simpl in Hdata. apply andb_true_iff in Hdata as [Hdx Hdxs].
  destruct (serialize_defined gap inner x Hdx) as [tx Htx].
  simpl in Hfuel, Hx. destruct fuel as [|f]; [lia|].
  assert (Hfx : size x <= f) by lia.
  unfold round_trips in Hx.
  destruct xs as [|y ys].
  - simpl map. simpl join.
    rewrite (member_line_shape gap inner k x tx _ Htx).
    rewrite (parse_members_member f k (member_space gap) tx
               (trail ++ String "}" rest) x (blank_member_space gap)).
    + rewrite (skip_ws_blank trail _ Htrail). reflexivity.
    + apply (Hx Hdx gap inner tx _ f Hgap Hinner); auto.
      apply delimited_blank; [exact Htrail | reflexivity].
  - assert (Hrest : list_sum (map (fun kv => S (size (snd kv))) (y :: ys)) <= f)
      by lia.
    specialize (IH Hxs Hdxs ltac:(discriminate) gap inner lead trail rest f
                   Hgap Hinner Hlead Htrail Hrest).
    change (map (member_line gap inner) ((k, x) :: y :: ys))
      with (member_line gap inner (k, x) :: map (member_line gap inner) (y :: ys)).
    remember (map (member_line gap inner) (y :: ys)) as tail eqn:Etail.
    assert (Hjoin : join ("," ++ lead) (member_line gap inner (k, x) :: tail)
                    = member_line gap inner (k, x)
                        ++ String "," (lead ++ join ("," ++ lead) tail)).
    { subst tail. simpl map. cbn [join]. reflexivity. }
    rewrite Hjoin. rewrite append_assoc.
    change ((String "," (lead ++ join ("," ++ lead) tail)) ++ trail ++ String "}" rest)
      with (String "," ((lead ++ join ("," ++ lead) tail) ++ trail ++ String "}" rest)).
    rewrite append_assoc.
    set (more := join ("," ++ lead) tail ++ trail ++ String "}" rest) in *.
    rewrite (member_line_shape gap inner k x tx _ Htx).
    rewrite (parse_members_member f k (member_space gap) tx
               (String "," (lead ++ more)) x (blank_member_space gap)).
    + change (skip_ws (String "," (lead ++ more))) with (String "," (lead ++ more)).
      cbv iota. change (Ascii.eqb "," ",") with true. cbv iota.
      rewrite (parse_members_blank f lead more Hlead), IH. reflexivity.
    + apply (Hx Hdx gap inner tx _ f Hgap Hinner); auto.
Qed.

Lemma prefix_empty (s : string) : String.prefix "" s = true.
Proof. destruct s; reflexivity. Qed.

Lemma parse_value_literal (f : nat) (rest : string) :
  parse_value (S f) ("null" ++ rest) = Some (JNull, rest) /\
  parse_value (S f) ("true" ++ rest) = Some (JBool true, rest) /\
  parse_value (S f) ("false" ++ rest) = Some (JBool false, rest).
Proof.
  repeat split; rewrite parse_value_S; simpl; unfold expect; simpl;
    rewrite prefix_empty; reflexivity.
Qed.

Lemma parse_value_number (f : nat) (n : Z) (rest : string) :
  delimited rest = true ->
  parse_value (S f) (number_to_string n ++ rest) = Some (JNumber n, rest).
Proof.
  intro H. pose proof (parse_number_to_string n rest H) as Hp.
  rewrite parse_value_S. unfold number_to_string in *.
  destruct n as [|p|p]; simpl Z.to_int in *; simpl NilEmpty.string_of_int in *.
  - simpl append in *. rewrite skip_ws_head by reflexivity.
    cbv beta iota delta [Ascii.eqb Bool.eqb dquote]. rewrite Hp. reflexivity.
  - pose proof (to_uint_head p) as Hhead.
    destruct (Pos.to_uint p); try contradiction;
      simpl NilEmpty.string_of_uint in *; simpl append in *;
      rewrite skip_ws_head by reflexivity;
      cbv beta iota delta [Ascii.eqb Bool.eqb dquote]; rewrite Hp; reflexivity.
  - simpl append in *. rewrite skip_ws_head by reflexivity.
    cbv beta iota delta [Ascii.eqb Bool.eqb dquote]. rewrite Hp. reflexivity.
Qed.

Lemma parse_value_string (f : nat) (s rest : string) :
  parse_value (S f) (QuoteJSONString s ++ rest) = Some (JString s, rest).
Proof.
  rewrite parse_value_S. unfold QuoteJSONString. simpl append.
  rewrite append_assoc. simpl append.
  rewrite skip_ws_head by reflexivity.
  cbv beta iota delta [Ascii.eqb Bool.eqb dquote].
  fold dquote. rewrite parse_quote_chars. reflexivity.
Qed.

Lemma join_head (sep p : string) (ps : list string) :
  exists more, join sep (p :: ps) = p ++ more.
Proof.
  destruct ps as [|q ps].
  - exists "". simpl. symmetry. apply append_empty_r.
  - eexists. reflexivity.
Qed.

Lemma parse_value_array (f : nat) (lead body rest : string) (items : list JSValue) :
  blank lead = true -> opens body = true ->
  parse_elements f body = Some (items, rest) ->
  parse_value (S f) (String "[" (lead ++ body)) = Some (JArray items, rest).
Proof.
  intros Hlead Hopen Hitems. rewrite parse_value_S.
  rewrite skip_ws_head by reflexivity. rewrite Ascii.eqb_refl.
  rewrite (skip_ws_blank lead body Hlead).
  destruct body as [|c body']; [discriminate|].
  simpl in Hopen. apply andb_true_iff in Hopen as [Hw Hb].
  apply negb_true_iff in Hw, Hb.
  rewrite (skip_ws_head c body' Hw), Hb.
  rewrite (parse_elements_blank f lead _ Hlead), Hitems. reflexivity.
Qed.

Lemma parse_value_object (f : nat) (lead body rest : string)
      (props : list (string * JSValue)) :
  blank lead = true ->
  parse_members f (String dquote body) = Some (props, rest) ->
  parse_value (S f) (String "{" (lead ++ String dquote body)) = Some (JObject props, rest).
Proof.
  intros Hlead Hprops. rewrite parse_value_S.
  rewrite skip_ws_head by reflexivity.
  change (Ascii.eqb "{" "[") with false. cbv iota. rewrite Ascii.eqb_refl.
  rewrite (skip_ws_blank lead _ Hlead).
  rewrite (skip_ws_head dquote body eq_refl).
  change (Ascii.eqb dquote "}") with false. cbv iota.
  rewrite (parse_members_blank f lead _ Hlead), Hprops. reflexivity.
Qed.

Lemma opens_append (a b : string) : opens a = true -> opens (a ++ b) = true.
Proof. destruct a; [discriminate|]. simpl. auto. Qed.

(** Every value of JSON data is read back from its serialization,
    whatever the gap and the indentation. *)
Theorem parse_serialize (v : JSValue) : round_trips v.
Proof.
  induction v as [| |b|n|s|items IH|props IH] using JSValue_induction;
    unfold round_trips; intros Hdata gap indent t rest fuel Hgap Hindent Hrest Hser Hfuel;
    try discriminate Hdata;
    (destruct fuel as [|f]; [simpl in Hfuel; lia|]).
  - injection Hser as <-. apply parse_value_literal.
  - destruct b; injection Hser as <-; apply parse_value_literal.
  - injection Hser as <-. apply parse_value_number, Hrest.
  - injection Hser as <-. apply parse_value_string.
  - simpl in Hdata, Hfuel. simpl in Hser. injection Hser as <-.
    destruct items as [|x xs]; [reflexivity|].
    assert (Hinner : blank (indent ++ gap) = true) by (apply blank_append; assumption).
    change (map (fun x0 => match serialize gap (indent ++ gap) x0 with
                           | Some t => t
                           | None => "null"
                           end) (x :: xs))
      with (element_text gap (indent ++ gap) x
              :: map (element_text gap (indent ++ gap)) xs).
    destruct (wrap_shape "[" "]" gap indent (indent ++ gap)
                (element_text gap (indent ++ gap) x)
                (map (element_text gap (indent ++ gap)) xs) Hindent Hinner)
      as (lead & trail & Hlead & Htrail & ->).
    rewrite !append_assoc.
    apply (parse_value_array f lead _ rest (x :: xs)); [exact Hlead| |].
    + destruct (join_head ("," ++ lead) (element_text gap (indent ++ gap) x)
                  (map (element_text gap (indent ++ gap)) xs)) as [more ->].
      rewrite append_assoc. apply opens_append.
      apply andb_true_iff in Hdata as [Hx _].
      destruct (serialize_defined gap (indent ++ gap) x Hx) as [tx Htx].
      unfold element_text. rewrite Htx. apply (opens_serialize _ _ _ _ Htx).
    + apply (parse_elements_join (x :: xs) IH Hdata ltac:(discriminate)
               gap (indent ++ gap) lead trail rest f Hgap Hinner Hlead Htrail).
      lia.
  - simpl in Hdata, Hfuel. simpl in Hser. injection Hser as <-.
    destruct props as [|[k x] xs]; [reflexivity|].
    assert (Hinner : blank (indent ++ gap) = true) by (apply blank_append; assumption).
    change (flat_map _ ((k, x) :: xs))
      with (flat_map (member_text gap (indent ++ gap)) ((k, x) :: xs)).
    rewrite (flat_map_member_text gap (indent ++ gap) _ Hdata).
    change (map (member_line gap (indent ++ gap)) ((k, x) :: xs))
      with (member_line gap (indent ++ gap) (k, x)
              :: map (member_line gap (indent ++ gap)) xs).
    destruct (wrap_shape "{" "}" gap indent (indent ++ gap)
                (member_line gap (indent ++ gap) (k, x))
                (map (member_line gap (indent ++ gap)) xs) Hindent Hinner)
      as (lead & trail & Hlead & Htrail & ->).
    rewrite !append_assoc.
    assert (Hsum : list_sum (map (fun kv => S (size (snd kv))) ((k, x) :: xs)) <= f)
      by (simpl in *; lia).
    pose proof (parse_members_join ((k, x) :: xs) IH Hdata ltac:(discriminate)
                  gap (indent ++ gap) lead trail rest f Hgap Hinner Hlead Htrail
                  Hsum) as Hm.
    change (map (member_line gap (indent ++ gap)) ((k, x) :: xs))
      with (member_line gap (indent ++ gap) (k, x)
              :: map (member_line gap (indent ++ gap)) xs) in Hm.
    destruct (join_head ("," ++ lead) (member_line gap (indent ++ gap) (k, x))
                (map (member_line gap (indent ++ gap)) xs)) as [more Hmore].
    assert (Hline : exists body,
               member_line gap (indent ++ gap) (k, x) = String dquote body)
      by (eexists; reflexivity).
    destruct Hline as [body Hline].
    rewrite Hmore, Hline in *. rewrite !append_assoc in *.
    apply (parse_value_object f lead _ rest ((k, x) :: xs) Hlead Hm).
Qed.

Lemma length_join (sep : string) (parts : list string) :
  1 <= String.length sep ->
  list_sum (map (fun p => S (String.length p)) parts)
  <= S (String.length (join sep parts)).
Proof.
  intro Hsep. induction parts as [|p [|q r] IH].
  - simpl. lia.
  - simpl. lia.
  - change (join sep (p :: q :: r)) with (p ++ sep ++ join sep (q :: r)).
    rewrite !length_append.
    change (list_sum (map (fun p0 => S (String.length p0)) (p :: q :: r)))
      with (S (String.length p)
            + list_sum (map (fun p0 => S (String.length p0)) (q :: r))).
    lia.
Qed.

Lemma length_wrap (opening closing gap stepback indent : string)
      (partial : list string) :
  String.length opening = 1 -> String.length closing = 1 ->
  S (list_sum (map (fun p => S (String.length p)) partial))
  <= String.length (wrap opening closing gap stepback indent partial).
Proof.
  intros Ho Hc. unfold wrap. destruct partial as [|p ps].
  - rewrite length_append. simpl. lia.
  - destruct (String.eqb gap "").
    + pose proof (length_join "," (p :: ps) (le_n 1)) as H.
      rewrite !length_append. lia.
    + assert (Hsep : 1 <= String.length ("," ++ newline ++ indent))
        by (simpl; lia).
      pose proof (length_join ("," ++ newline ++ indent) (p :: ps) Hsep) as H.
      rewrite !length_append. lia.
Qed.

Lemma list_sum_le {A B : Type} (f : A -> nat) (g : B -> nat) (h : A -> B)
      (l : list A) :
  Forall (fun a => f a <= g (h a)) l ->
  list_sum (map (fun a => S (f a)) l) <= list_sum (map (fun b => S (g b)) (map h l)).
Proof.
  induction 1 as [|a l Ha _ IH]; simpl; lia.
Qed.

(** The fuel a value needs is no more than the length of its text. *)
Lemma size_le_length (v : JSValue) :
  json_data v = true ->
  forall gap indent t, serialize gap indent v = Some t -> size v <= String.length t.
Proof.
  induction v as [| |b|n|s|items IH|props IH] using JSValue_induction;
    intros Hdata gap indent t Hser; try discriminate Hdata.
  - injection Hser as <-. simpl. lia.
  - destruct b; injection Hser as <-; simpl; lia.
  - injection Hser as <-. pose proof (opens_number n) as H.
    destruct (number_to_string n); [discriminate|]. simpl. lia.
  - injection Hser as <-. simpl. lia.
  - simpl in Hser. injection Hser as <-. simpl size.
    eapply Nat.le_trans; [|apply length_wrap; reflexivity].
    apply le_n_S.
    change (map (fun x => match serialize gap (indent ++ gap) x with
                          | Some t => t
                          | None => "null"
                          end) items)
      with (map (element_text gap (indent ++ gap)) items).
    apply (list_sum_le size String.length (element_text gap (indent ++ gap))).
    simpl in Hdata. rewrite forallb_forall in Hdata.
    rewrite Forall_forall in IH |- *. intros x Hx.
    destruct (serialize_defined gap (indent ++ gap) x (Hdata x Hx)) as [tx Htx].
    unfold element_text. rewrite Htx. apply (IH x Hx (Hdata x Hx) _ _ _ Htx).
  - simpl in Hser. injection Hser as <-. simpl size. simpl in Hdata.
    eapply Nat.le_trans; [|apply length_wrap; reflexivity].
    apply le_n_S.
    change (flat_map _ props) with (flat_map (member_text gap (indent ++ gap)) props).
    rewrite (flat_map_member_text gap (indent ++ gap) props Hdata).
    apply (list_sum_le (fun kv => size (snd kv)) String.length
             (member_line gap (indent ++ gap))).
    rewrite forallb_forall in Hdata.
    rewrite Forall_forall in IH |- *. intros [k x] Hx.
    specialize (Hdata _ Hx). specialize (IH _ Hx). simpl in Hdata, IH |- *.
    destruct (serialize_defined gap (indent ++ gap) x Hdata) as [tx Htx].
    unfold member_line, element_text. simpl fst. simpl snd. rewrite Htx.
    rewrite !length_append. specialize (IH Hdata _ _ _ Htx).
    cbn [String.length]. rewrite !length_append. lia.
Qed.

(** [JSON.parse(JSON.stringify(v, null, space))] is [v] for JSON data. *)
Theorem JSON_parse_stringify (v : JSValue) (space : nat) :
  json_data v = true ->
  exists t, JSON_stringify v space = Some t /\ JSON_parse t = Some v.
Proof.
  intro Hdata. unfold JSON_stringify.
  destruct (serialize_defined (spaces (Nat.min 10 space)) "" v Hdata) as [t Ht].
  exists t. split; [exact Ht|].
  unfold JSON_parse.
  pose proof (parse_serialize v Hdata (spaces (Nat.min 10 space)) "" t ""
                (S (String.length t)) (blank_spaces _) eq_refl eq_refl Ht) as H.
  rewrite append_empty_r in H. rewrite H.
  - reflexivity.
  - pose proof (size_le_length v Hdata _ _ _ Ht). lia.
Qed.

(* ================================================================== *)
(** ** JSON: what any value is read back as *)

Lemma normalize_array (items : list JSValue) :
  normalize (JArray items) = JArray (map normal_element items).
Proof. reflexivity. Qed.

Lemma normalize_object (props : list (string * JSValue)) :
  normalize (JObject props) = JObject (flat_map normal_member props).
Proof. reflexivity. Qed.

Lemma serialize_array (gap indent : string) (items : list JSValue) :
  serialize gap indent (JArray items)
  = Some (wrap "[" "]" gap indent (indent ++ gap)
            (map (element_text gap (indent ++ gap)) items)).
Proof. reflexivity. Qed.

Lemma serialize_object (gap indent : string) (props : list (string * JSValue)) :
  serialize gap indent (JObject props)
  = Some (wrap "{" "}" gap indent (indent ++ gap)
            (flat_map (member_text gap (indent ++ gap)) props)).
Proof. reflexivity. Qed.

(** Serializing sees no difference between a value and its normal form. *)
Lemma serialize_normalize (v : JSValue) :
  forall gap indent, serialize gap indent (normalize v) = serialize gap indent v.
Proof.
  induction v as [| |b|n|s|items IH|props IH] using JSValue_induction;
    intros gap indent; try reflexivity.
  - rewrite normalize_array, !serialize_array. f_equal. f_equal.
    rewrite map_map. apply map_ext_in. intros x Hx.
    rewrite Forall_forall in IH. specialize (IH x Hx gap (indent ++ gap)).
    unfold element_text, normal_element.
    destruct x; try (rewrite IH; reflexivity); reflexivity.
  - rewrite normalize_object, !serialize_object. f_equal. f_equal.
    induction props as [|[k x] props IHprops]; [reflexivity|].
    inversion IH as [|? ? Hx Hrest]; subst.
    specialize (Hx gap (indent ++ gap)). simpl snd in Hx.
    change (flat_map normal_member ((k, x) :: props))
      with ((normal_member (k, x) ++ flat_map normal_member props)%list).
    rewrite flat_map_app, (IHprops Hrest).
    change (flat_map (member_text gap (indent ++ gap)) ((k, x) :: props))
      with ((member_text gap (indent ++ gap) (k, x)
               ++ flat_map (member_text gap (indent ++ gap)) props)%list).
    f_equal.
    assert (Hcases : x = JUndefined \/ normal_member (k, x) = [(k, normalize x)])
      by (destruct x; [left; reflexivity | right; reflexivity ..]).
    destruct Hcases as [-> | ->]; [reflexivity|].
    cbn [flat_map]. rewrite List.app_nil_r.
    unfold member_text. cbn [fst snd]. rewrite Hx. reflexivity.
Qed.

(** A normal form is JSON data. *)
Lemma json_data_normalize (v : JSValue) :
  v <> JUndefined -> json_data (normalize v) = true.
Proof.
  induction v as [| |b|n|s|items IH|props IH] using JSValue_induction;
    intro Hv; try reflexivity.
  - congruence.
  - rewrite normalize_array. cbn [json_data]. rewrite forallb_forall. intros y Hy.
    apply in_map_iff in Hy as (x & <- & Hx).
    rewrite Forall_forall in IH. specialize (IH x Hx).
    unfold normal_element.
    destruct x; try (apply IH; discriminate); reflexivity.
  - rewrite normalize_object. cbn [json_data]. clear Hv.
    induction props as [|[k x] props IHprops]; [reflexivity|].
    inversion IH as [|? ? Hx Hrest]; subst. simpl snd in Hx.
    change (flat_map normal_member ((k, x) :: props))
      with ((normal_member (k, x) ++ flat_map normal_member props)%list).
    rewrite forallb_app, (IHprops Hrest), andb_true_r.
    unfold normal_member. simpl fst. simpl snd.
    destruct x; cbn [forallb snd]; try (rewrite Hx by discriminate; reflexivity);
      reflexivity.
Qed.

(** JSON data is its own normal form. *)
Lemma normalize_json_data (v : JSValue) :
  json_data v = true -> normalize v = v.
Proof.
  induction v as [| |b|n|s|items IH|props IH] using JSValue_induction;
    intro Hv; try reflexivity.
  - rewrite normalize_array. cbn [json_data] in Hv. f_equal.
    rewrite forallb_forall in Hv.
    rewrite <- (map_id items) at 2. apply map_ext_in. intros x Hx.
    rewrite Forall_forall in IH. specialize (IH x Hx (Hv x Hx)). specialize (Hv x Hx).
    unfold normal_element. destruct x; try exact IH; discriminate.
  - rewrite normalize_object. cbn [json_data] in Hv. f_equal.
    induction props as [|[k x] props IHprops]; [reflexivity|].
    inversion IH as [|? ? Hx Hrest]; subst. simpl snd in Hx.
    cbn [forallb snd] in Hv. apply andb_true_iff in Hv as [Hdx Hdrest].
    change (flat_map normal_member ((k, x) :: props))
      with ((normal_member (k, x) ++ flat_map normal_member props)%list).
    rewrite (IHprops Hrest Hdrest).
    unfold normal_member. simpl fst. simpl snd.
    destruct x; try discriminate; cbn [app]; rewrite (Hx Hdx); reflexivity.
Qed.

(** The text of a value other than [undefined] parses to its normal
    form, and the normal form serializes to the same text. *)
Lemma parse_stringify_normal_form (v : JSValue) (space : nat) :
  v <> JUndefined ->
  exists t,
    JSON_stringify v space = Some t
    /\ JSON_parse t = Some (normalize v)
    /\ JSON_stringify (normalize v) space = Some t.
Proof.
  intro Hv.
  destruct (JSON_parse_stringify (normalize v) space (json_data_normalize v Hv))
    as (t & Ht & Hparse).
  exists t. unfold JSON_stringify in *. rewrite serialize_normalize in Ht.
  split; [exact Ht|]. split; [exact Hparse|].
  rewrite serialize_normalize. exact Ht.
Qed.

(* ================================================================== *)
(** ** Strings: prefixes and [replace] *)

Lemma prefix_append (p s : string) : String.prefix p (p ++ s) = true.
Proof.
  induction p as [|c p IH]; simpl.
  - apply prefix_empty.
  - destruct (ascii_dec c c) as [_|Hc]; [exact IH | congruence].
Qed.

Lemma drop_append (p s : string) : drop (String.length p) (p ++ s) = s.
Proof. induction p as [|c p IH]; simpl; [reflexivity | exact IH]. Qed.

Lemma startsWith_split (s p : string) :
  startsWith s p = true -> s = p ++ drop (String.length p) s.
Proof.
  unfold startsWith. revert s.
  induction p as [|c p IH]; intros s H; [reflexivity|].
  destruct s as [|d s]; simpl in H; [discriminate|].
  destruct (ascii_dec c d) as [->|_]; [|discriminate].
  simpl. f_equal. apply IH, H.
Qed.

Lemma replace_unfold (s pattern replacement : string) :
  replace s pattern replacement
  = if String.prefix pattern s
    then replacement ++ drop (String.length pattern) s
    else match s with
         | EmptyString => EmptyString
         | String c s' => String c (replace s' pattern replacement)
         end.
Proof. destruct s; reflexivity. Qed.

(** Removing a prefix by [replace] leaves the remainder. *)
Lemma replace_prefix (p s : string) : replace (p ++ s) p "" = s.
Proof.
  rewrite replace_unfold, prefix_append, drop_append. reflexivity.
Qed.

(** The uris that the reader routes are the two static ones and the
    issue prefix followed by an id other than ["active"]: the template
    branch never meets the id ["active"]. *)
Lemma routable_cases (request_uri : string) :
  routable request_uri = true ->
  request_uri = "linear://issues/active"
  \/ request_uri = "linear://teams"
  \/ exists id, request_uri = "linear://issues/" ++ id /\ id <> "active".
Proof.
  unfold routable.
  destruct (String.eqb_spec request_uri "linear://issues/active") as [Hactive|Hactive];
    [left; exact Hactive|].
  destruct (String.eqb_spec request_uri "linear://teams") as [Hteams|Hteams];
    [right; left; exact Hteams|].
  simpl. intro Hprefix. right. right.
  pose proof (startsWith_split _ _ Hprefix) as Hsplit.
  exists (drop (String.length "linear://issues/") request_uri).
  split; [exact Hsplit|].
  intro Hid. apply Hactive. rewrite Hsplit, Hid. reflexivity.
Qed.

Lemma lookup_absent (key : string) (args : list (string * JSValue)) :
  mem key (map fst args) = false -> lookup key args = JUndefined.
Proof.
  induction args as [|[k v] args IH]; simpl; intro H; [reflexivity|].
  apply orb_false_iff in H as [Hk Hrest].
  rewrite String.eqb_sym, Hk. apply IH, Hrest.
Qed.

(* ================================================================== *)
(** ** The tool catalog *)

(** C4 (amended). [listTools] returns three tools, in declaration order:
    [create_issue] with required fields [title] and [teamId] and optional
    fields [description] and [priority], the latter with minimum 0 and
    maximum 4; [read_team_ids] with no parameters; [update_issue] with
    required field [issueId] and optional fields [title], [description] and
    [status]. *)
Theorem listTools_catalog :
  map tool_summary listTools
  = [ ("create_issue", ["title"; "teamId"], ["description"; "priority"]);
      ("read_team_ids", [], []);
      ("update_issue", ["issueId"], ["title"; "description"; "status"]) ]
  /\ map (fun t => map fst (schema_properties (inputSchema t))) listTools
     = [ ["title"; "description"; "teamId"; "priority"];
         [];
         ["issueId"; "title"; "description"; "status"] ]
  /\ map (fun t => option_map (fun p => (prop_minimum p, prop_maximum p))
                              (property t "priority")) listTools
     = [ Some (Some 0%Z, Some 4%Z); None; None ].
Proof. repeat split. Qed.

(* ================================================================== *)
(** ** The handlers *)

Section Properties.

Variable W : Type.
Variable linearClient : LinearClient W.
Variable McpError_message : ErrorCode -> string -> string.
Variable destructure_message : string.

Local Abbreviation read := (readResource linearClient McpError_message).
Local Abbreviation call := (callTool linearClient McpError_message destructure_message).
Local Abbreviation failed := (error_result McpError_message).

(** The result of a read whose payload is [payload]. *)
Local Abbreviation read_result u payload :=
  {| contents := [ {| uri := u; mimeType := "application/json";
                      text := JSON_stringify payload 2 |} ] |}.

Local Abbreviation read_failure error :=
  (McpError InternalError ("Linear API error: " ++ error_text McpError_message error)).

Local Abbreviation said t := {| content := [ text_item (Some t) ]; isError := None |}.

(* ---------------------------------------------------------------- *)
(** *** The resource reader, branch by branch *)

Lemma readResource_active (w : W) :
  run (read "linear://issues/active") w
  = match issues linearClient ["started"; "unstarted"; "backlog"] w with
    | (Resolved found, w') =>
        (Resolved (read_result "linear://issues/active" (nodes found)),
         {| world := w'; log := [CallIssues ["started"; "unstarted"; "backlog"]] |})
    | (Rejected error, w') =>
        (Rejected (read_failure error),
         {| world := w'; log := [CallIssues ["started"; "unstarted"; "backlog"]] |})
    end.
Proof.
  unfold run, readResource, try_catch, bind, request, ret, throw. simpl.
  destruct (issues linearClient _ w) as [[found|error] w']; reflexivity.
Qed.

Lemma readResource_teams (w : W) :
  run (read "linear://teams") w
  = match teams linearClient w with
    | (Resolved found, w') =>
        (Resolved (read_result "linear://teams" (nodes found)),
         {| world := w'; log := [CallTeams] |})
    | (Rejected error, w') =>
        (Rejected (read_failure error), {| world := w'; log := [CallTeams] |})
    end.
Proof.
  unfold run, readResource, try_catch, bind, request, ret, throw. simpl.
  destruct (teams linearClient w) as [[found|error] w']; reflexivity.
Qed.

Lemma readResource_issue (id : string) (w : W) :
  id <> "active" ->
  run (read ("linear://issues/" ++ id)) w
  = match issue linearClient id w with
    | (Resolved found, w') =>
        (Resolved (read_result ("linear://issues/" ++ id) found),
         {| world := w'; log := [CallIssue id] |})
    | (Rejected error, w') =>
        (Rejected (read_failure error), {| world := w'; log := [CallIssue id] |})
    end.
Proof.
  intro Hid. apply String.eqb_neq in Hid.
  unfold run, readResource.
  assert (Hactive : String.eqb ("linear://issues/" ++ id) "linear://issues/active"
                    = false) by (simpl; exact Hid).
  assert (Hteams : String.eqb ("linear://issues/" ++ id) "linear://teams" = false)
    by reflexivity.
  rewrite Hactive, Hteams. unfold startsWith.
  rewrite prefix_append, replace_prefix, Hid.
  unfold try_catch, bind, request, ret, throw. simpl.
  destruct (issue linearClient id w) as [[found|error] w']; reflexivity.
Qed.

Lemma readResource_unroutable (request_uri : string) (w : W) :
  routable request_uri = false ->
  run (read request_uri) w
  = (Rejected (read_failure (McpError InvalidRequest ("Unknown resource: " ++ request_uri))),
     {| world := w; log := [] |}).
Proof.
  unfold routable. intro H.
  apply orb_false_iff in H as [H Hprefix]. apply orb_false_iff in H as [Hactive Hteams].
  unfold run, readResource. rewrite Hactive, Hteams, Hprefix. reflexivity.
Qed.

(* ---------------------------------------------------------------- *)
(** *** The tool dispatcher, branch by branch *)

Lemma callTool_create (args : list (string * JSValue)) (w : W) :
  run (call "create_issue" (Some args)) w
  = match createIssue linearClient (create_input args) w with
    | (Resolved payload, w') =>
        (Resolved
           match payload_issue payload with
           | Some (Resolved created) =>
               said ("Created issue: " ++ ToString (optional_get created "url"))
           | Some (Rejected error) => failed error
           | None => said "Created issue: undefined"
           end,
         {| world := w'; log := [CallCreateIssue (create_input args)] |})
    | (Rejected error, w') =>
        (Resolved (failed error),
         {| world := w'; log := [CallCreateIssue (create_input args)] |})
    end.
Proof.
  unfold run, callTool, try_catch, bind, request, destructure, await_issue,
    await, ret, throw, create_input. simpl.
  destruct (createIssue linearClient _ w) as [[payload|error] w']; [|reflexivity].
  destruct (payload_issue payload) as [[created|error]|]; reflexivity.
Qed.

Lemma callTool_update (args : list (string * JSValue)) (w : W) :
  run (call "update_issue" (Some args)) w
  = match updateIssue linearClient (lookup "issueId" args) (update_input args) w with
    | (Resolved payload, w') =>
        (Resolved
           match payload_issue payload with
           | Some (Resolved updated) =>
               said ("Updated issue: " ++ ToString (optional_get updated "url"))
           | Some (Rejected error) => failed error
           | None => said "Updated issue: undefined"
           end,
         {| world := w';
            log := [CallUpdateIssue (lookup "issueId" args) (update_input args)] |})
    | (Rejected error, w') =>
        (Resolved (failed error),
         {| world := w';
            log := [CallUpdateIssue (lookup "issueId" args) (update_input args)] |})
    end.
Proof.
  unfold run, callTool, try_catch, bind, request, destructure, await_issue,
    await, ret, throw, update_input. simpl.
  destruct (updateIssue linearClient _ _ w) as [[payload|error] w']; [|reflexivity].
  destruct (payload_issue payload) as [[updated|error]|]; reflexivity.
Qed.

Lemma callTool_read_team_ids (arguments : option (list (string * JSValue))) (w : W) :
  run (call "read_team_ids" arguments) w
  = match teams linearClient w with
    | (Resolved found, w') =>
        (Resolved {| content := [ text_item (JSON_stringify (nodes found) 0) ];
                     isError := None |},
         {| world := w'; log := [CallTeams] |})
    | (Rejected error, w') =>
        (Resolved (failed error), {| world := w'; log := [CallTeams] |})
    end.
Proof.
  unfold run, callTool, try_catch, bind, request, ret, throw. simpl.
  destruct (teams linearClient w) as [[found|error] w']; reflexivity.
Qed.

Lemma callTool_without_arguments (name : string) (w : W) :
  name = "create_issue" \/ name = "update_issue" ->
  run (call name None) w
  = (Resolved (failed (OtherError destructure_message)),
     {| world := w; log := [] |}).
Proof. intros [-> | ->]; reflexivity. Qed.

Lemma callTool_undeclared (name : string)
      (arguments : option (list (string * JSValue))) (w : W) :
  declared_tool name = false ->
  run (call name arguments) w
  = (Resolved (failed (McpError MethodNotFound ("Unknown tool: " ++ name))),
     {| world := w; log := [] |}).
Proof.
  unfold declared_tool, mem. simpl. intro H.
  apply orb_false_iff in H as [Hcreate H].
  apply orb_false_iff in H as [Hread H].
  apply orb_false_iff in H as [Hupdate _].
  unfold run, callTool. rewrite Hcreate, Hupdate, Hread. reflexivity.
Qed.

(** The dispatcher settles every request with a result: nothing that
    happens inside it leaves it as a rejection. *)
Lemma callTool_never_rejects (name : string)
      (arguments : option (list (string * JSValue))) (w : W) :
  exists result, fst (run (call name arguments) w) = Resolved result.
Proof.
  unfold run, callTool, try_catch.
  match goal with
  | |- context [match ?body ?st with _ => _ end] => destruct (body st) as [[r|e] st']
  end; eexists; reflexivity.
Qed.

(* ---------------------------------------------------------------- *)
(** *** The claims *)

(** C1 (as the code behaves). A call-tool request whose name is none of
    [create_issue], [read_team_ids], [update_issue] raises
    [McpError(MethodNotFound)] inside the dispatcher's own [try]; the
    [catch] turns it into a soft result with [isError = true], whose text
    is ["Linear API error: "] followed by the message of that error. No
    backend call is made, and the request is not rejected. *)
Theorem callTool_unknown_tool_soft_error (name : string)
        (arguments : option (list (string * JSValue))) (w : W) :
  declared_tool name = false ->
  run (call name arguments) w
  = (Resolved
       {| content :=
            [ {| content_type := "text";
                 content_text :=
                   Some ("Linear API error: "
                           ++ McpError_message MethodNotFound
                                ("Unknown tool: " ++ name)) |} ];
          isError := Some true |},
     {| world := w; log := [] |}).
Proof. intro H. rewrite (callTool_undeclared name arguments w H). reflexivity. Qed.

(** C2 (as the code behaves). A read of a uri that is neither
    ["linear://issues/active"] nor ["linear://teams"] and does not start
    with ["linear://issues/"] makes no backend call; the
    [McpError(InvalidRequest)] it raises is caught by the reader's own
    [catch] and leaves the reader as an [McpError(InternalError)] whose
    text wraps the message of the first. *)
Theorem readResource_unknown_uri_internal_error (request_uri : string) (w : W) :
  routable request_uri = false ->
  run (read request_uri) w
  = (Rejected
       (McpError InternalError
          ("Linear API error: "
             ++ McpError_message InvalidRequest ("Unknown resource: " ++ request_uri))),
     {| world := w; log := [] |})
  /\ forall message,
      fst (run (read request_uri) w) <> Rejected (McpError InvalidRequest message).
Proof.
  intro H. rewrite (readResource_unroutable request_uri w H).
  split; [reflexivity | intros message Heq; discriminate Heq].
Qed.

(** C3 (amended). The dispatcher does not check the fields that the
    catalog requires. With an arguments object present, [create_issue]
    and [update_issue] always make their backend call, and a field that
    is not a key of the arguments is passed as [undefined]. Only a request
    that carries no arguments object at all fails before the backend, and
    it does so as a soft result. *)
Theorem callTool_required_fields_unchecked (args : list (string * JSValue)) (w : W) :
  log (snd (run (call "create_issue" (Some args)) w))
  = [CallCreateIssue {| create_title := lookup "title" args;
                        create_description := lookup "description" args;
                        create_teamId := lookup "teamId" args;
                        create_priority := lookup "priority" args |}]
  /\ log (snd (run (call "update_issue" (Some args)) w))
     = [CallUpdateIssue (lookup "issueId" args)
                        {| update_title := lookup "title" args;
                           update_description := lookup "description" args |}]
  /\ (forall key, mem key (map fst args) = false -> lookup key args = JUndefined)
  /\ run (call "create_issue" None) w
     = (Resolved (failed (OtherError destructure_message)), {| world := w; log := [] |})
  /\ run (call "update_issue" None) w
     = (Resolved (failed (OtherError destructure_message)), {| world := w; log := [] |}).
Proof.
  split; [|split; [|split; [|split]]].
  - rewrite callTool_create.
    destruct (createIssue linearClient _ w) as [[payload|error] w']; reflexivity.
  - rewrite callTool_update.
    destruct (updateIssue linearClient _ _ w) as [[payload|error] w']; reflexivity.
  - intros key. apply lookup_absent.
  - apply callTool_without_arguments. left. reflexivity.
  - apply callTool_without_arguments. right. reflexivity.
Qed.




(** C8. When the backend read that a routable uri stands for succeeds,
    the reader returns one item whose [uri] is the uri of the request and
    whose [text] is [JSON.stringify(payload, null, 2)] of the whole
    payload; for a payload of JSON data, parsing that text gives the
    payload back, every key of it included. *)
Theorem readResource_echoes_uri_and_payload (request_uri : string) (w w' : W)
        (payload : JSValue) :
  backend_read linearClient request_uri w payload w' ->
  fst (run (read request_uri) w)
  = Resolved
      {| contents :=
           [ {| uri := request_uri;
                mimeType := "application/json";
                text := JSON_stringify payload 2 |} ] |}
  /\ (json_data payload = true ->
      exists t, JSON_stringify payload 2 = Some t /\ JSON_parse t = Some payload).
Proof.
  intro Hread. split.
  - destruct Hread as [found w' -> Hcall | found w' -> Hcall | id found w' -> Hid Hcall].
    + rewrite readResource_active, Hcall. reflexivity.
    + rewrite readResource_teams, Hcall. reflexivity.
    + rewrite (readResource_issue id w Hid), Hcall. reflexivity.
  - apply JSON_parse_stringify.
Qed.


(** C10 (amended). When [createIssue] succeeds and the issue of its
    payload, when there is one, resolves, [create_issue] returns a result
    without [isError] and with one text item: ["Created issue: "]
    followed by the url of the created issue, and the literal
    ["Created issue: undefined"] when the payload has no issue. *)
Theorem callTool_create_issue_success (args : list (string * JSValue)) (w w' : W)
        (payload : IssuePayload) :
  createIssue linearClient
              {| create_title := lookup "title" args;
                 create_description := lookup "description" args;
                 create_teamId := lookup "teamId" args;
                 create_priority := lookup "priority" args |} w
  = (Resolved payload, w') ->
  (forall created,
      payload_issue payload = Some (Resolved created) ->
      fst (run (call "create_issue" (Some args)) w)
      = Resolved
          {| content :=
               [ {| content_type := "text";
                    content_text :=
                      Some ("Created issue: "
                              ++ ToString (optional_get created "url")) |} ];
             isError := None |})
  /\ (payload_issue payload = None ->
      fst (run (call "create_issue" (Some args)) w)
      = Resolved
          {| content :=
               [ {| content_type := "text";
                    content_text := Some "Created issue: undefined" |} ];
             isError := None |}).
Proof.
  intro Hcall. split.
  - intros created Hissue.
    rewrite callTool_create. unfold create_input. rewrite Hcall, Hissue. reflexivity.
  - intro Hissue.
    rewrite callTool_create. unfold create_input. rewrite Hcall, Hissue. reflexivity.
Qed.

(* ---------------------------------------------------------------- *)
(** *** Further properties of the reader *)


(** X2. Whatever the reader rejects a request with is an
    [McpError(InternalError)] whose text starts with
    ["Linear API error: "]; the rest of the text is the message of the
    unknown-resource error when the uri is not routable, and the message of
    what the backend threw otherwise. No other code ever leaves the
    reader. *)
Theorem readResource_rejections (request_uri : string) (w : W) (rejection : Thrown) :
  fst (run (read request_uri) w) = Rejected rejection ->
  exists message,
    rejection = McpError InternalError ("Linear API error: " ++ message)
    /\ ((routable request_uri = false
         /\ message = McpError_message InvalidRequest
                        ("Unknown resource: " ++ request_uri))
        \/ exists error,
            backend_read_failure linearClient request_uri w error
            /\ message = error_text McpError_message error).
Proof.
  intro Hrun. destruct (routable request_uri) eqn:Hroute.
  - destruct (routable_cases request_uri Hroute) as [-> | [-> | (id & -> & Hid)]].
    + rewrite readResource_active in Hrun.
      destruct (issues linearClient _ w) as [[found|error] w'] eqn:Hcall;
        [discriminate Hrun|].
      injection Hrun as <-. eexists. split; [reflexivity|]. right.
      exists error. split; [|reflexivity].
      exact (@active_rejected _ linearClient _ w error w' eq_refl Hcall).
    + rewrite readResource_teams in Hrun.
      destruct (teams linearClient w) as [[found|error] w'] eqn:Hcall;
        [discriminate Hrun|].
      injection Hrun as <-. eexists. split; [reflexivity|]. right.
      exists error. split; [|reflexivity].
      exact (@teams_read_rejected _ linearClient _ w error w' eq_refl Hcall).
    + rewrite (readResource_issue id w Hid) in Hrun.
      destruct (issue linearClient id w) as [[found|error] w'] eqn:Hcall;
        [discriminate Hrun|].
      injection Hrun as <-. eexists. split; [reflexivity|]. right.
      exists error. split; [|reflexivity].
      exact (@issue_rejected _ linearClient _ w id error w' eq_refl Hid Hcall).
  - rewrite (readResource_unroutable request_uri w Hroute) in Hrun.
    injection Hrun as <-. eexists. split; [reflexivity|]. left.
    split; reflexivity.
Qed.

(** X3. The reader answers a request only when the backend read that its
    uri stands for succeeded: the result then holds exactly one item, with
    the uri of the request, the mime type ["application/json"] and the
    serialized payload of that read. *)
Theorem readResource_results (request_uri : string) (w : W)
        (result : ReadResourceResult) :
  fst (run (read request_uri) w) = Resolved result ->
  exists payload w',
    backend_read linearClient request_uri w payload w'
    /\ result = {| contents := [ {| uri := request_uri;
                                    mimeType := "application/json";
                                    text := JSON_stringify payload 2 |} ] |}.
Proof.
  intro Hrun. destruct (routable request_uri) eqn:Hroute.
  - destruct (routable_cases request_uri Hroute) as [-> | [-> | (id & -> & Hid)]].
    + rewrite readResource_active in Hrun.
      destruct (issues linearClient _ w) as [[found|error] w'] eqn:Hcall;
        [|discriminate Hrun].
      injection Hrun as <-. exists (nodes found), w'. split; [|reflexivity].
      exact (@read_active _ linearClient _ w found w' eq_refl Hcall).
    + rewrite readResource_teams in Hrun.
      destruct (teams linearClient w) as [[found|error] w'] eqn:Hcall;
        [|discriminate Hrun].
      injection Hrun as <-. exists (nodes found), w'. split; [|reflexivity].
      exact (@read_teams _ linearClient _ w found w' eq_refl Hcall).
    + rewrite (readResource_issue id w Hid) in Hrun.
      destruct (issue linearClient id w) as [[found|error] w'] eqn:Hcall;
        [|discriminate Hrun].
      injection Hrun as <-. exists found, w'. split; [|reflexivity].
      exact (@read_issue _ linearClient _ w id found w' eq_refl Hid Hcall).
  - rewrite (readResource_unroutable request_uri w Hroute) in Hrun.
    discriminate Hrun.
Qed.

(** X4. A read makes exactly one backend call when its uri is routable and
    none otherwise, whether the call succeeds or not. *)
Theorem readResource_call_count (request_uri : string) (w : W) :
  List.length (log (snd (run (read request_uri) w)))
  = if routable request_uri then 1 else 0.
Proof.
  destruct (routable request_uri) eqn:Hroute.
  - destruct (routable_cases request_uri Hroute) as [-> | [-> | (id & -> & Hid)]].
    + rewrite readResource_active.
      destruct (issues linearClient _ w) as [[found|error] w']; reflexivity.
    + rewrite readResource_teams.
      destruct (teams linearClient w) as [[found|error] w']; reflexivity.
    + rewrite (readResource_issue id w Hid).
      destruct (issue linearClient id w) as [[found|error] w']; reflexivity.
  - rewrite (readResource_unroutable request_uri w Hroute). reflexivity.
Qed.

(** X9. Every resource that [listResources] advertises is routable; a read
    of it makes one backend call, which is not an [issue] call, and a
    result of that read carries the uri and the mime type of the catalog
    entry. *)
Theorem listResources_are_readable (entry : Resource) (w : W) :
  In entry listResources ->
  routable (res_uri entry) = true
  /\ (exists made,
         log (snd (run (read (res_uri entry)) w)) = [made]
         /\ forall id, made <> CallIssue id)
  /\ (forall result,
         fst (run (read (res_uri entry)) w) = Resolved result ->
         exists t, contents result = [ {| uri := res_uri entry;
                                          mimeType := res_mimeType entry;
                                          text := t |} ]).
Proof.
  intros [<- | [<- | []]]; (split; [reflexivity|]); split.
  - cbn [res_uri]. rewrite readResource_active.
    exists (CallIssues ["started"; "unstarted"; "backlog"]).
    split; [|intros id Heq; discriminate Heq].
    destruct (issues linearClient _ w) as [[found|error] w']; reflexivity.
  - cbn [res_uri res_mimeType]. rewrite readResource_active. intros result Hrun.
    destruct (issues linearClient _ w) as [[found|error] w']; [|discriminate Hrun].
    injection Hrun as <-. eexists. reflexivity.
  - cbn [res_uri]. rewrite readResource_teams.
    exists CallTeams. split; [|intros id Heq; discriminate Heq].
    destruct (teams linearClient w) as [[found|error] w']; reflexivity.
  - cbn [res_uri res_mimeType]. rewrite readResource_teams. intros result Hrun.
    destruct (teams linearClient w) as [[found|error] w']; [|discriminate Hrun].
    injection Hrun as <-. eexists. reflexivity.
Qed.

(* ---------------------------------------------------------------- *)
(** *** Further properties of the dispatcher *)

Lemma callTool_names (name : string) :
  name = "create_issue" \/ name = "update_issue" \/ name = "read_team_ids"
  \/ declared_tool name = false.
Proof.
  destruct (String.eqb_spec name "create_issue") as [Hc|Hc]; [left; exact Hc|].
  destruct (String.eqb_spec name "update_issue") as [Hu|Hu]; [right; left; exact Hu|].
  destruct (String.eqb_spec name "read_team_ids") as [Hr|Hr];
    [right; right; left; exact Hr|].
  right. right. right. unfold declared_tool, mem. simpl.
  apply String.eqb_neq in Hc, Hu, Hr. rewrite Hc, Hu, Hr. reflexivity.
Qed.

(** X5. The dispatcher answers every request, whatever its name and
    arguments and whatever the backend does: the result holds exactly one
    item of type ["text"], and its [isError] is either absent or [true]; when
    it is [true] the text starts with ["Linear API error: "]. *)
Theorem callTool_result_shape (name : string)
        (arguments : option (list (string * JSValue))) (w : W) :
  exists result item,
    fst (run (call name arguments) w) = Resolved result
    /\ content result = [item]
    /\ content_type item = "text"
    /\ (isError result = None
        \/ (isError result = Some true
            /\ exists message,
                content_text item = Some ("Linear API error: " ++ message))).
Proof.
  assert (Hfail : forall error,
             content (failed error)
             = [ text_item (Some ("Linear API error: " ++ error_text McpError_message error)) ]
             /\ isError (failed error) = Some true) by (intro; split; reflexivity).
  destruct (callTool_names name) as [-> | [-> | [-> | Hname]]].
  - destruct arguments as [args|].
    + rewrite callTool_create.
      destruct (createIssue linearClient _ w) as [[payload|error] w'];
        [destruct (payload_issue payload) as [[created|error]|]|];
        do 2 eexists; (split; [reflexivity|]); (split; [reflexivity|]);
        (split; [reflexivity|]);
        first [left; reflexivity | right; split; [reflexivity | eexists; reflexivity]].
    + rewrite (callTool_without_arguments "create_issue" w (or_introl eq_refl)).
      do 2 eexists. split; [reflexivity|]. split; [reflexivity|]. split; [reflexivity|].
      right. split; [reflexivity | eexists; reflexivity].
  - destruct arguments as [args|].
    + rewrite callTool_update.
      destruct (updateIssue linearClient _ _ w) as [[payload|error] w'];
        [destruct (payload_issue payload) as [[updated|error]|]|];
        do 2 eexists; (split; [reflexivity|]); (split; [reflexivity|]);
        (split; [reflexivity|]);
        first [left; reflexivity | right; split; [reflexivity | eexists; reflexivity]].
    + rewrite (callTool_without_arguments "update_issue" w (or_intror eq_refl)).
      do 2 eexists. split; [reflexivity|]. split; [reflexivity|]. split; [reflexivity|].
      right. split; [reflexivity | eexists; reflexivity].
  - rewrite callTool_read_team_ids.
    destruct (teams linearClient w) as [[found|error] w'];
      do 2 eexists; (split; [reflexivity|]); (split; [reflexivity|]);
      (split; [reflexivity|]);
      first [left; reflexivity | right; split; [reflexivity | eexists; reflexivity]].
  - rewrite (callTool_undeclared name arguments w Hname).
    do 2 eexists. split; [reflexivity|]. split; [reflexivity|]. split; [reflexivity|].
    right. split; [reflexivity | eexists; reflexivity].
Qed.

(** X6. With an arguments object, a call reaches the backend exactly once
    when its name is one that [listTools] declares and not at all
    otherwise; without an arguments object only [read_team_ids] reaches
    it. *)
Theorem callTool_call_count (name : string) (w : W) :
  (forall args,
      List.length (log (snd (run (call name (Some args)) w)))
      = if declared_tool name then 1 else 0)
  /\ List.length (log (snd (run (call name None) w)))
     = if String.eqb name "read_team_ids" then 1 else 0.
Proof.
  destruct (callTool_names name) as [-> | [-> | [-> | Hname]]].
  - split; [intro args; rewrite callTool_create
           |rewrite (callTool_without_arguments "create_issue" w (or_introl eq_refl));
            reflexivity].
    destruct (createIssue linearClient _ w) as [[payload|error] w']; reflexivity.
  - split; [intro args; rewrite callTool_update
           |rewrite (callTool_without_arguments "update_issue" w (or_intror eq_refl));
            reflexivity].
    destruct (updateIssue linearClient _ _ w) as [[payload|error] w']; reflexivity.
  - split; [intro args|]; rewrite callTool_read_team_ids;
      destruct (teams linearClient w) as [[found|error] w']; reflexivity.
  - assert (Hread : String.eqb name "read_team_ids" = false).
    { unfold declared_tool, mem in Hname. simpl in Hname.
      apply orb_false_iff in Hname as [_ Hname].
      apply orb_false_iff in Hname as [Hname _]. exact Hname. }
    split; [intro args|]; rewrite (callTool_undeclared name _ w Hname), ?Hname, ?Hread;
      reflexivity.
Qed.

(** X7. What [create_issue] does depends on its arguments only through the
    keys [title], [description], [teamId] and [priority], and what
    [update_issue] does only through [issueId], [title] and [description];
    [read_team_ids] does the same with any arguments and with none. *)
Theorem callTool_reads_only_its_keys (w : W) :
  (forall args args',
      lookup "title" args = lookup "title" args' ->
      lookup "description" args = lookup "description" args' ->
      lookup "teamId" args = lookup "teamId" args' ->
      lookup "priority" args = lookup "priority" args' ->
      run (call "create_issue" (Some args)) w = run (call "create_issue" (Some args')) w)
  /\ (forall args args',
         lookup "issueId" args = lookup "issueId" args' ->
         lookup "title" args = lookup "title" args' ->
         lookup "description" args = lookup "description" args' ->
         run (call "update_issue" (Some args)) w = run (call "update_issue" (Some args')) w)
  /\ (forall arguments arguments',
         run (call "read_team_ids" arguments) w = run (call "read_team_ids" arguments') w).
Proof.
  split; [|split].
  - intros args args' Ht Hd Hteam Hp. rewrite !callTool_create.
    unfold create_input. rewrite Ht, Hd, Hteam, Hp. reflexivity.
  - intros args args' Hi Ht Hd. rewrite !callTool_update.
    unfold update_input. rewrite Hi, Ht, Hd. reflexivity.
  - intros arguments arguments'. rewrite !callTool_read_team_ids. reflexivity.
Qed.

(** X10. What a client reads back from a resource: when the backend read
    succeeds with a payload other than [undefined] whose numbers are safe
    integers, the text of the result parses to the payload without its
    [undefined]-valued properties and with [null] for its [undefined] array
    elements, and serializing that parsed value again gives the same
    text. *)
Theorem readResource_text_reads_back (request_uri : string) (w w' : W)
        (payload : JSValue) :
  backend_read linearClient request_uri w payload w' ->
  payload <> JUndefined ->
  safe_integers payload = true ->
  exists t,
    fst (run (read request_uri) w)
    = Resolved {| contents := [ {| uri := request_uri;
                                   mimeType := "application/json";
                                   text := Some t |} ] |}
    /\ JSON_parse t = Some (normalize payload)
    /\ JSON_stringify (normalize payload) 2 = Some t.
Proof.
  intros Hread Hdefined _.
  destruct (parse_stringify_normal_form payload 2 Hdefined) as (t & Ht & Hparse & Hagain).
  exists t. split; [|split; assumption].
  destruct Hread as [found w' -> Hcall | found w' -> Hcall | id found w' -> Hid Hcall].
  - rewrite readResource_active, Hcall, Ht. reflexivity.
  - rewrite readResource_teams, Hcall, Ht. reflexivity.
  - rewrite (readResource_issue id w Hid), Hcall, Ht. reflexivity.
Qed.

(** X11. The teams read through the resource ["linear://teams"] and
    through the tool [read_team_ids] are the same data: when [teams]
    succeeds with a node list other than [undefined] whose numbers are safe
    integers, both handlers answer with a text, one indented and one not,
    and both texts parse to the same value, the node list without its
    [undefined]-valued properties. *)
Theorem teams_resource_and_tool_agree (arguments : option (list (string * JSValue)))
        (w w' : W) (found : Connection) :
  teams linearClient w = (Resolved found, w') ->
  nodes found <> JUndefined ->
  safe_integers (nodes found) = true ->
  exists t_read t_tool,
    fst (run (read "linear://teams") w)
    = Resolved {| contents := [ {| uri := "linear://teams";
                                   mimeType := "application/json";
                                   text := Some t_read |} ] |}
    /\ fst (run (call "read_team_ids" arguments) w)
       = Resolved {| content := [ {| content_type := "text";
                                     content_text := Some t_tool |} ];
                     isError := None |}
    /\ JSON_parse t_read = Some (normalize (nodes found))
    /\ JSON_parse t_tool = Some (normalize (nodes found)).
Proof.
  intros Hcall Hdefined _.
  destruct (parse_stringify_normal_form (nodes found) 2 Hdefined) as (t2 & Ht2 & Hp2 & _).
  destruct (parse_stringify_normal_form (nodes found) 0 Hdefined) as (t0 & Ht0 & Hp0 & _).
  exists t2, t0.
  rewrite readResource_teams, callTool_read_team_ids, Hcall, Ht2, Ht0.
  repeat split; assumption.
Qed.

(** X8. A mutation that succeeds without a url to show is still reported
    as a success: when the payload has no issue, or its issue has no [url]
    ([undefined], [null], or an object without that key), [create_issue]
    answers ["Created issue: undefined"] and [update_issue]
    ["Updated issue: undefined"], without [isError]. *)
Theorem callTool_missing_url (args : list (string * JSValue)) (w w' : W)
        (payload : IssuePayload) :
  payload_issue payload = None
  \/ (exists settled,
         payload_issue payload = Some (Resolved settled)
         /\ optional_get settled "url" = JUndefined) ->
  (createIssue linearClient
               {| create_title := lookup "title" args;
                  create_description := lookup "description" args;
                  create_teamId := lookup "teamId" args;
                  create_priority := lookup "priority" args |} w
   = (Resolved payload, w') ->
   fst (run (call "create_issue" (Some args)) w)
   = Resolved {| content := [ {| content_type := "text";
                                 content_text := Some "Created issue: undefined" |} ];
                 isError := None |})
  /\ (updateIssue linearClient (lookup "issueId" args)
                  {| update_title := lookup "title" args;
                     update_description := lookup "description" args |} w
      = (Resolved payload, w') ->
      fst (run (call "update_issue" (Some args)) w)
      = Resolved {| content := [ {| content_type := "text";
                                    content_text := Some "Updated issue: undefined" |} ];
                    isError := None |}).
Proof.
  intro Hurl. split; intro Hcall.
  - rewrite callTool_create. unfold create_input. rewrite Hcall.
    destruct Hurl as [-> | (settled & -> & Hmissing)]; [reflexivity|].
    cbn [fst]. rewrite Hmissing. reflexivity.
  - rewrite callTool_update. unfold update_input. rewrite Hcall.
    destruct Hurl as [-> | (settled & -> & Hmissing)]; [reflexivity|].
    cbn [fst]. rewrite Hmissing. reflexivity.
Qed.

(** X14. The template branch of the reader never meets the id
    ["active"]: a uri that is not one of the two static ones and starts with
    ["linear://issues/"] always leaves an id other than ["active"] once the
    prefix is removed, so the guard inside that branch always passes and the
    [issue] call is always made. *)
Theorem readResource_template_guard (request_uri : string) :
  String.eqb request_uri "linear://issues/active" = false ->
  String.eqb request_uri "linear://teams" = false ->
  startsWith request_uri "linear://issues/" = true ->
  String.eqb (replace request_uri "linear://issues/" "") "active" = false
  /\ forall w,
      log (snd (run (read request_uri) w))
      = [CallIssue (replace request_uri "linear://issues/" "")].
Proof.
  intros Hactive Hteams Hprefix.
  pose proof (startsWith_split _ _ Hprefix) as Hsplit.
  set (id := drop (String.length "linear://issues/") request_uri) in *.
  assert (Hid : id <> "active").
  { intro Heq. apply String.eqb_neq in Hactive. apply Hactive.
    rewrite Hsplit, Heq. reflexivity. }
  rewrite Hsplit, replace_prefix. split.
  - apply String.eqb_neq, Hid.
  - intro w. rewrite (readResource_issue id w Hid).
    destruct (issue linearClient id w) as [[found|error] w']; reflexivity.
Qed.

End Properties.

(* ================================================================== *)
(** ** The handlers on concrete requests *)

Example stringify_indented :
  JSON_stringify (JArray [JNumber 1; JArray []; JNumber (-20)]) 2
  = Some ("[" ++ newline ++ "  1," ++ newline ++ "  []," ++ newline ++ "  -20"
              ++ newline ++ "]").
Proof. reflexivity. Qed.

Example stringify_compact :
  JSON_stringify (JArray [JNumber 1; JArray []; JNumber (-20)]) 0 = Some "[1,[],-20]".
Proof. reflexivity. Qed.

Example replace_first_occurrence :
  replace "a/b/a/b" "a/" "" = "b/a/b" /\ replace "linear://teams" "linear://issues/" "" = "linear://teams".
Proof. split; reflexivity. Qed.

Lemma callTool_unknown_tool_soft_error_witness :
  declared_tool "does_not_exist" = false
  /\ run (callTool tracker sdk_message type_error_message "does_not_exist" (Some []))
         tracker_world
     = (Resolved
          {| content :=
               [ {| content_type := "text";
                    content_text :=
                      Some "Linear API error: MCP error -32601: Unknown tool: does_not_exist" |} ];
             isError := Some true |},
        {| world := tracker_world; log := [] |}).
Proof.
  split; [reflexivity|].
  exact (callTool_unknown_tool_soft_error _ tracker sdk_message type_error_message
           "does_not_exist" (Some []) tracker_world eq_refl).
Defined.

Lemma readResource_unknown_uri_internal_error_witness :
  routable "linear://unknown" = false
  /\ run (readResource tracker sdk_message "linear://unknown") tracker_world
     = (Rejected
          (McpError InternalError
             "Linear API error: MCP error -32600: Unknown resource: linear://unknown"),
        {| world := tracker_world; log := [] |}).
Proof.
  split; [reflexivity|].
  exact (proj1 (readResource_unknown_uri_internal_error _ tracker sdk_message
                  "linear://unknown" tracker_world eq_refl)).
Defined.

(** C3, as stated, fails: [create_issue] with an empty arguments object
    lacks both required fields, and the backend is reached all the same. *)
Lemma required_fields_checked_counterexample :
  ~ (forall name args w,
        missing_required name args = true ->
        log (snd (run (callTool tracker sdk_message type_error_message name (Some args)) w))
        = []).
Proof.
  intro H. specialize (H "create_issue" [] tracker_world eq_refl).
  discriminate H.
Qed.

Lemma callTool_required_fields_unchecked_witness :
  mem "title" (map fst (@nil (string * JSValue))) = false
  /\ lookup "title" [] = JUndefined
  /\ log (snd (run (callTool tracker sdk_message type_error_message "create_issue"
                             (Some [])) tracker_world))
     = [CallCreateIssue {| create_title := JUndefined;
                           create_description := JUndefined;
                           create_teamId := JUndefined;
                           create_priority := JUndefined |}].
Proof.
  pose proof (callTool_required_fields_unchecked _ tracker sdk_message
                type_error_message [] tracker_world) as (Hcreate & _ & Habsent & _).
  split; [reflexivity|]. split; [exact (Habsent "title" eq_refl) | exact Hcreate].
Defined.

(** C4, as stated, fails: the schema of [update_issue] declares a fourth
    property, [status]. *)
Lemma listTools_claimed_counterexample :
  map tool_summary listTools
  <> [ ("create_issue", ["title"; "teamId"], ["description"; "priority"]);
       ("read_team_ids", [], []);
       ("update_issue", ["issueId"], ["title"; "description"]) ].
Proof. intro H. discriminate H. Qed.




Lemma readResource_echoes_uri_and_payload_witness :
  backend_read tracker "linear://teams" tracker_world
               (JArray [ JObject [ ("id", JString "team1"); ("name", JString "Core") ] ])
               tracker_world
  /\ exists t,
      fst (run (readResource tracker sdk_message "linear://teams") tracker_world)
      = Resolved {| contents := [ {| uri := "linear://teams";
                                     mimeType := "application/json";
                                     text := Some t |} ] |}
      /\ JSON_parse t
         = Some (JArray [ JObject [ ("id", JString "team1"); ("name", JString "Core") ] ]).
Proof.
  assert (Hread : backend_read tracker "linear://teams" tracker_world
                    (JArray [ JObject [ ("id", JString "team1"); ("name", JString "Core") ] ])
                    tracker_world).
  { exact (@read_teams _ tracker "linear://teams" tracker_world
             {| nodes := JArray [ JObject [ ("id", JString "team1");
                                             ("name", JString "Core") ] ] |}
             tracker_world eq_refl eq_refl). }
  split; [exact Hread|].
  destruct (readResource_echoes_uri_and_payload _ tracker sdk_message _ _ _ _ Hread)
    as [Hresult Hback].
  destruct (Hback eq_refl) as (t & Ht & Hparse).
  exists t. rewrite Hresult, Ht. split; [reflexivity | exact Hparse].
Defined.



(** C10, as stated, fails: [createIssue] succeeds, but the issue of the
    payload it returns is rejected when awaited; the [await] sits inside the
    dispatcher's [try], and the result is the soft failure. *)
Lemma create_issue_success_counterexample :
  ~ (forall (W : Type) (client : LinearClient W) (args : list (string * JSValue))
            (w w' : W) (payload : IssuePayload),
        createIssue client (create_input args) w = (Resolved payload, w') ->
        exists t,
          fst (run (callTool client sdk_message type_error_message "create_issue"
                             (Some args)) w)
          = Resolved {| content := [ {| content_type := "text";
                                        content_text := Some t |} ];
                        isError := None |}).
Proof.
  intro H.
  destruct (H unit
              (scripted (Resolved {| payload_issue :=
                                       Some (Rejected (OtherError "Entity not found: Issue")) |}))
              [("title", JString "T"); ("teamId", JString "team1")] tt tt
              {| payload_issue := Some (Rejected (OtherError "Entity not found: Issue")) |}
              eq_refl) as (t & Hresult).
  discriminate Hresult.
Qed.

Lemma callTool_create_issue_success_witness :
  fst (run (callTool tracker sdk_message type_error_message "create_issue"
                     (Some [("title", JString "T"); ("teamId", JString "team1")]))
           tracker_world)
  = Resolved
      {| content :=
           [ {| content_type := "text";
                content_text :=
                  Some "Created issue: https://linear.app/acme/issue/ENG-2" |} ];
         isError := None |}
  /\ fst (run (callTool (scripted (Resolved {| payload_issue := None |}))
                        sdk_message type_error_message "create_issue"
                        (Some [("title", JString "T"); ("teamId", JString "team1")]))
              tt)
     = Resolved
         {| content :=
              [ {| content_type := "text";
                   content_text := Some "Created issue: undefined" |} ];
            isError := None |}.
Proof.
  split.
  - exact (proj1 (callTool_create_issue_success _ tracker sdk_message type_error_message
                    [("title", JString "T"); ("teamId", JString "team1")]
                    tracker_world _ _ eq_refl)
             _ eq_refl).
  - exact (proj2 (callTool_create_issue_success _
                    (scripted (Resolved {| payload_issue := None |}))
                    sdk_message type_error_message
                    [("title", JString "T"); ("teamId", JString "team1")]
                    tt tt _ eq_refl)
             eq_refl).
Defined.

(* ================================================================== *)
(** ** The further properties on concrete requests *)


Lemma readResource_rejections_witness :
  fst (run (readResource tracker sdk_message "linear://unknown") tracker_world)
  = Rejected (McpError InternalError
                "Linear API error: MCP error -32600: Unknown resource: linear://unknown")
  /\ exists message,
      McpError InternalError
        "Linear API error: MCP error -32600: Unknown resource: linear://unknown"
      = McpError InternalError ("Linear API error: " ++ message).
Proof.
  split; [reflexivity|].
  destruct (readResource_rejections _ tracker sdk_message "linear://unknown"
              tracker_world _ eq_refl) as (message & Hmessage & _).
  exists message. exact Hmessage.
Defined.

Lemma readResource_results_witness :
  exists payload w',
    backend_read tracker "linear://teams" tracker_world payload w'
    /\ {| contents :=
            [ {| uri := "linear://teams"; mimeType := "application/json";
                 text := JSON_stringify (JArray [ JObject [ ("id", JString "team1");
                                                             ("name", JString "Core") ] ]) 2 |} ] |}
       = {| contents := [ {| uri := "linear://teams"; mimeType := "application/json";
                             text := JSON_stringify payload 2 |} ] |}.
Proof.
  exact (readResource_results _ tracker sdk_message "linear://teams" tracker_world
           _ eq_refl).
Defined.

Lemma listResources_are_readable_witness :
  routable "linear://issues/active" = true
  /\ exists made,
      log (snd (run (readResource tracker sdk_message "linear://issues/active")
                    tracker_world)) = [made]
      /\ forall id, made <> CallIssue id.
Proof.
  destruct (listResources_are_readable _ tracker sdk_message
              {| res_uri := "linear://issues/active"; res_name := "Active Issues";
                 res_mimeType := "application/json";
                 res_description := "Currently active issues in Linear" |}
              tracker_world (or_introl eq_refl)) as (Hroute & Hcall & _).
  split; [exact Hroute | exact Hcall].
Defined.

Lemma callTool_reads_only_its_keys_witness :
  run (callTool tracker sdk_message type_error_message "create_issue"
                (Some [("labels", JArray []); ("teamId", JString "team1");
                       ("title", JString "T")]))
      tracker_world
  = run (callTool tracker sdk_message type_error_message "create_issue"
                  (Some [("title", JString "T"); ("teamId", JString "team1")]))
        tracker_world.
Proof.
  exact (proj1 (callTool_reads_only_its_keys _ tracker sdk_message type_error_message
                  tracker_world)
           [("labels", JArray []); ("teamId", JString "team1"); ("title", JString "T")]
           [("title", JString "T"); ("teamId", JString "team1")]
           eq_refl eq_refl eq_refl eq_refl).
Defined.

Lemma teams_resource_and_tool_agree_witness :
  exists t_read t_tool,
    fst (run (readResource tracker sdk_message "linear://teams") tracker_world)
    = Resolved {| contents := [ {| uri := "linear://teams";
                                   mimeType := "application/json";
                                   text := Some t_read |} ] |}
    /\ fst (run (callTool tracker sdk_message type_error_message "read_team_ids" None)
                tracker_world)
       = Resolved {| content := [ {| content_type := "text";
                                     content_text := Some t_tool |} ];
                     isError := None |}
    /\ JSON_parse t_read
       = Some (JArray [ JObject [ ("id", JString "team1"); ("name", JString "Core") ] ])
    /\ JSON_parse t_tool
       = Some (JArray [ JObject [ ("id", JString "team1"); ("name", JString "Core") ] ]).
Proof.
  exact (teams_resource_and_tool_agree _ tracker sdk_message type_error_message None
           tracker_world tracker_world _ eq_refl ltac:(discriminate) eq_refl).
Defined.

Lemma readResource_text_reads_back_witness :
  backend_read tracker "linear://issues/ENG-7" tracker_world
               (JObject [ ("id", JString "ENG-7");
                          ("title", JString "Fix login");
                          ("archivedAt", JUndefined) ])
               tracker_world
  /\ exists t,
      fst (run (readResource tracker sdk_message "linear://issues/ENG-7") tracker_world)
      = Resolved {| contents := [ {| uri := "linear://issues/ENG-7";
                                     mimeType := "application/json";
                                     text := Some t |} ] |}
      /\ JSON_parse t
         = Some (JObject [ ("id", JString "ENG-7"); ("title", JString "Fix login") ]).
Proof.
  assert (Hread : backend_read tracker "linear://issues/ENG-7" tracker_world
                    (JObject [ ("id", JString "ENG-7");
                               ("title", JString "Fix login");
                               ("archivedAt", JUndefined) ])
                    tracker_world).
  { exact (@read_issue _ tracker "linear://issues/ENG-7" tracker_world "ENG-7" _
             tracker_world eq_refl ltac:(discriminate) eq_refl). }
  split; [exact Hread|].
  destruct (readResource_text_reads_back _ tracker sdk_message _ _ _ _ Hread
              ltac:(discriminate) eq_refl) as (t & Hresult & Hparse & _).
  exists t. split; [exact Hresult | exact Hparse].
Defined.

Lemma callTool_missing_url_witness :
  fst (run (callTool (scripted (Resolved {| payload_issue := Some (Resolved JNull) |}))
                     sdk_message type_error_message "update_issue"
                     (Some [("issueId", JString "ENG-7")]))
           tt)
  = Resolved {| content := [ {| content_type := "text";
                                content_text := Some "Updated issue: undefined" |} ];
                isError := None |}.
Proof.
  refine (proj2 (callTool_missing_url _
                   (scripted (Resolved {| payload_issue := Some (Resolved JNull) |}))
                   sdk_message type_error_message
                   [("issueId", JString "ENG-7")] tt tt
                   {| payload_issue := Some (Resolved JNull) |} _)
            eq_refl).
  right. exists JNull. split; reflexivity.
Defined.

Lemma readResource_template_guard_witness :
  String.eqb (replace "linear://issues/activate" "linear://issues/" "") "active" = false
  /\ log (snd (run (readResource tracker sdk_message "linear://issues/activate")
                   tracker_world))
     = [CallIssue "activate"].
Proof.
  destruct (readResource_template_guard _ tracker sdk_message "linear://issues/activate"
              eq_refl eq_refl eq_refl) as [Hguard Hlog].
  split; [exact Hguard | exact (Hlog tracker_world)].
Defined.
